(** * revproxy: a caching reverse proxy (go-cache-plugin)

    A shallow embedding of [revproxy.Server]: the Cache-Control parser, the
    cacheability predicates, target matching, request rewriting and the
    per-request handler [ServeHTTP], followed by the properties of the
    handler that the specification states.

    Go strings and byte slices are sequences of bytes: they are modelled by
    [string] (a list of 8-bit [ascii]).  [int] and [time.Duration] are 64-bit
    signed integers, modelled by [Z] with the wrap-around written out. *)

From Stdlib Require Import ZArith Ascii String List Bool Lia.
From stdpp Require Import base option list gmap strings fin_maps.

#[local] Set Warnings "-clear-no-such-hyp".

Local Open Scope string_scope.
Local Open Scope list_scope.
Local Open Scope Z_scope.

(** ** Go library functions used by the package *)

Definition byteZ (c : ascii) : Z := Z.of_N (N_of_ascii c).

Definition byte_in (lo hi : Z) (c : ascii) : bool :=
  (lo <=? byteZ c) && (byteZ c <=? hi).

Module utf8.
(** [RuneSelf]: bytes below it are single-byte runes. *)
Definition RuneSelf : Z := 128.
End utf8.

Module strings.

(** [strings.Split(s, sep)] for a one-byte separator: the substrings
    between the separators; a string without separator is returned whole,
    and the empty string gives one empty element. *)
Fixpoint Split (s : string) (sep : ascii) : list string :=
  match s with
  | EmptyString => [EmptyString]
  | String c s' =>
      if Ascii.eqb c sep then EmptyString :: Split s' sep
      else match Split s' sep with
           | x :: xs => String c x :: xs
           | [] => [String c EmptyString]
           end
  end.

(** [strings.Cut(s, sep)] for a one-byte separator: the text before and
    after the first separator, and whether there was one. *)
Fixpoint Cut (s : string) (sep : ascii) : string * string * bool :=
  match s with
  | EmptyString => (EmptyString, EmptyString, false)
  | String c s' =>
      if Ascii.eqb c sep then (EmptyString, s', true)
      else let '(before, after, found) := Cut s' sep in
           (String c before, after, found)
  end.

(** The table [asciiSpace] of package strings: tab, newline, vertical tab,
    form feed, carriage return and space. *)
Definition asciiSpace (c : ascii) : bool :=
  byte_in 9 13 c || (byteZ c =? 32).

(** The UTF-8 encodings of the code points of [unicode.IsSpace] above
    U+007F: U+0085, U+00A0 (two bytes), U+1680, U+2000..U+200A, U+2028,
    U+2029, U+202F, U+205F, U+3000 (three bytes). *)
Definition space2 (b0 b1 : ascii) : bool :=
  (byteZ b0 =? 194) && ((byteZ b1 =? 133) || (byteZ b1 =? 160)).

Definition space3 (b0 b1 b2 : ascii) : bool :=
  ((byteZ b0 =? 225) && (byteZ b1 =? 154) && (byteZ b2 =? 128))
  || ((byteZ b0 =? 226) && (byteZ b1 =? 128)
      && (byte_in 128 138 b2 || byte_in 168 169 b2 || (byteZ b2 =? 175)))
  || ((byteZ b0 =? 226) && (byteZ b1 =? 129) && (byteZ b2 =? 159))
  || ((byteZ b0 =? 227) && (byteZ b1 =? 128) && (byteZ b2 =? 128)).

(** [TrimLeftFunc(s, unicode.IsSpace)]: drop leading white-space runes.  A
    byte that does not start a well-formed rune decodes to [RuneError],
    which is not white space, so trimming stops there. *)
Fixpoint trimLeftSpace (s : string) : string :=
  match s with
  | EmptyString => EmptyString
  | String b0 s1 =>
      if byteZ b0 <? utf8.RuneSelf then
        if asciiSpace b0 then trimLeftSpace s1 else s
      else
        match s1 with
        | String b1 s2 =>
            if space2 b0 b1 then trimLeftSpace s2
            else match s2 with
                 | String b2 s3 =>
                     if space3 b0 b1 b2 then trimLeftSpace s3 else s
                 | EmptyString => s
                 end
        | EmptyString => s
        end
  end.

(** The same from the right, on the reversed bytes:
    [utf8.DecodeLastRuneInString] walks back to the first byte of the last
    rune and decodes it forward. *)
Fixpoint trimLeftSpaceRev (r : list ascii) : list ascii :=
  match r with
  | [] => []
  | b0 :: r1 =>
      if byteZ b0 <? utf8.RuneSelf then
        if asciiSpace b0 then trimLeftSpaceRev r1 else r
      else
        match r1 with
        | b1 :: r2 =>
            if space2 b1 b0 then trimLeftSpaceRev r2
            else match r2 with
                 | b2 :: r3 =>
                     if space3 b2 b1 b0 then trimLeftSpaceRev r3 else r
                 | [] => r
                 end
        | [] => r
        end
  end.

Definition trimRightSpace (s : string) : string :=
  string_of_list_ascii
    (rev (trimLeftSpaceRev (rev (list_ascii_of_string s)))).

(** [strings.TrimSpace(s)]: [s] without leading and trailing white space,
    as Unicode defines it.  Go runs an ASCII fast path first and falls back
    to [TrimFunc(_, unicode.IsSpace)]; both give this result. *)
Definition TrimSpace (s : string) : string :=
  trimRightSpace (trimLeftSpace s).

End strings.

Module strconv.

Definition minInt : Z := - 2 ^ 63.
Definition maxInt : Z := 2 ^ 63 - 1.

Definition isDigit (c : ascii) : bool := byte_in 48 57 c.

Fixpoint digits (acc : Z) (s : string) : option Z :=
  match s with
  | EmptyString => Some acc
  | String c s' =>
      if isDigit c then digits (acc * 10 + (byteZ c - 48)) s' else None
  end.

(** [strconv.Atoi(s)] on a 64-bit platform: an optional sign, then one or
    more decimal digits; [None] stands for a syntax or range error. *)
Definition Atoi (s : string) : option Z :=
  let '(neg, body) :=
    match s with
    | String "-"%char s' => (true, s')
    | String "+"%char s' => (false, s')
    | _ => (false, s)
    end in
  match body with
  | EmptyString => None
  | _ =>
      match digits 0 body with
      | None => None
      | Some n =>
          let v := if neg then - n else n in
          if (minInt <=? v) && (v <=? maxInt) then Some v else None
      end
  end.

End strconv.

Module time.

(** [time.Duration] is an int64 count of nanoseconds. *)
Definition Duration := Z.

Definition wrap64 (z : Z) : Z := (z + 2 ^ 63) mod 2 ^ 64 - 2 ^ 63.

Definition Second : Duration := 1000000000.
Definition Hour : Duration := 3600 * Second.

(** Multiplication of two durations, as the machine does it. *)
Definition mul (a b : Duration) : Duration := wrap64 (a * b).

End time.

Module http.

(** [http.Header]: a map from canonical field names to their values. *)
Abbreviation Header := (gmap string (list string)).

Definition StatusOK : Z := 200.
Definition StatusBadGateway : Z := 502.

(** [http.StatusText], at the codes the package uses. *)
Definition StatusText (code : Z) : string :=
  if code =? 502 then "Bad Gateway"
  else if code =? 200 then "OK"
  else "".

(** [textproto.validHeaderFieldByte]: the token characters of RFC 7230. *)
Definition validHeaderFieldByte (c : ascii) : bool :=
  byte_in 48 57 c || byte_in 65 90 c || byte_in 97 122 c
  || existsb (Ascii.eqb c) (list_ascii_of_string "!#$%&'*+-.^_`|~").

Definition upperByte (c : ascii) : ascii :=
  if byte_in 97 122 c then ascii_of_N (N_of_ascii c - 32) else c.
Definition lowerByte (c : ascii) : ascii :=
  if byte_in 65 90 c then ascii_of_N (N_of_ascii c + 32) else c.

Fixpoint canonicalize (upper : bool) (s : string) : string :=
  match s with
  | EmptyString => EmptyString
  | String c s' =>
      let c' := if upper then upperByte c else lowerByte c in
      String c' (canonicalize (Ascii.eqb c' "-"%char) s')
  end.

(** [textproto.CanonicalMIMEHeaderKey]: first letter and letters after a
    hyphen in upper case, the rest in lower case; a key with a byte that is
    not a token character is returned as it is. *)
Definition CanonicalMIMEHeaderKey (s : string) : string :=
  if forallb validHeaderFieldByte (list_ascii_of_string s)
  then canonicalize true s else s.

Definition Header_Get (h : Header) (key : string) : string :=
  match h !! CanonicalMIMEHeaderKey key with
  | Some (v :: _) => v
  | _ => ""
  end.

Definition Header_Values (h : Header) (key : string) : list string :=
  default [] (h !! CanonicalMIMEHeaderKey key).

Definition Header_Set (h : Header) (key value : string) : Header :=
  <[CanonicalMIMEHeaderKey key := [value]]> h.

Definition Header_Add (h : Header) (key value : string) : Header :=
  <[CanonicalMIMEHeaderKey key := (Header_Values h key ++ [value])%list]> h.

Definition Header_Del (h : Header) (key : string) : Header :=
  delete (CanonicalMIMEHeaderKey key) h.

End http.

(** ** Cache-Control *)

Record cacheControl := mkCacheControl {
  Keys : gset string;
  MaxAge : time.Duration
}.

(** One round of the loop of [parseCacheControl], on the element [v]. *)
Definition parseCacheControl_step (out : cacheControl) (v : string)
  : cacheControl :=
  let '(key, val, ok) := strings.Cut (strings.TrimSpace v) "="%char in
  let out :=
    if ok && String.eqb key "max-age" then
      match strconv.Atoi val with
      | Some sec => mkCacheControl (Keys out) (time.mul sec time.Second)
      | None => out
      end
    else out in
  mkCacheControl (Keys out ∪ {[key]}) (MaxAge out).

Definition parseCacheControl (s : string) : cacheControl :=
  foldl parseCacheControl_step (mkCacheControl ∅ 0)
        (strings.Split s ","%char).

Definition Has (ks : gset string) (k : string) : bool := bool_decide (k ∈ ks).

(** ** Requests and responses *)

Record URL := mkURL {
  Scheme : string;
  Opaque : string;
  UHost : string;
  Path : string;
  RawQuery : string
}.

Record Request := mkRequest {
  Method : string;
  RURL : URL;
  Host : string;
  RequestURI : string;
  ReqHeader : http.Header
}.

(** An [http.Response] as the [ModifyResponse] hook sees it: status and
    header; the body is still to be streamed. *)
Record Response := mkResponse {
  StatusCode : Z;
  RspHeader : http.Header
}.

(** ** Cacheability *)

Definition hostMatchesTarget (host : string) (targets : list string) : bool :=
  existsb (String.eqb host) targets.

Definition canCacheRequest (r : Request) : bool :=
  String.eqb (Method r) "GET"
  && negb (Has (Keys (parseCacheControl
                        (http.Header_Get (ReqHeader r) "Cache-Control")))
               "no-store").

Definition goodLongTime : time.Duration := 60 * 24 * time.Hour.

Definition canCacheResponse (rsp : Response) : bool :=
  if negb (StatusCode rsp =? http.StatusOK) then false
  else
    let cc := parseCacheControl
                (http.Header_Get (RspHeader rsp) "Cache-Control") in
    if Has (Keys cc) "no-store" then false
    else if Has (Keys cc) "immutable" then true
    else Has (Keys cc) "must-revalidate" && (goodLongTime <? MaxAge cc).

Definition canMemoryCache (rsp : Response) : time.Duration * bool :=
  if negb (StatusCode rsp =? http.StatusOK) then (0, false)
  else
    let cc := parseCacheControl
                (http.Header_Get (RspHeader rsp) "Cache-Control") in
    if Has (Keys cc) "no-store" || Has (Keys cc) "no-cache" then (0, false)
    else if (0 <? MaxAge cc) && (MaxAge cc <? time.Hour)
         then (MaxAge cc, true)
         else (0, false).

(** ** The server and its effects *)

Abbreviation bytes := string (only parsing).

Definition len (b : bytes) : Z := Z.of_nat (String.length b).

(** The configuration of a [Server].  [Logf] tells whether the logging
    function is set (non-nil); calling it is the effect [ELogf]. *)
Record Server := mkServer {
  Targets : list string;
  Local : string;
  KeyPrefix : string;
  Logf : bool;
  LogRequests : bool
}.

(** The [expvar.Int] fields of the server. *)
Inductive Counter :=
| reqReceived | reqMemoryHit | reqLocalHit | reqLocalMiss | reqFaultHit
| reqFaultMiss | reqForward | rspSave | rspSaveMem | rspSaveError
| rspSaveBytes | rspPush | rspPushError | rspPushBytes | rspNotCached.

(** A non-nil Go [error]. *)
Inductive error := mkError (msg : string).

(** Arguments of a log line; [AElapsed] stands for [time.Since(start)]. *)
Inductive Arg :=
| AStr (s : string) | AInt (n : Z) | ABool (b : bool) | AErr (e : error)
| AElapsed.

(** The task that [s.cacheStoreS3(hash, hdr, body)] returns. *)
Inductive Task := cacheStoreS3 (hash : string) (hdr : http.Header) (body : bytes).

(** What the handler does to the world outside its own code, each with the
    type of the answer it gets back: [s.init()], [Add] on a counter, a call
    of [s.Logf], the cache operations of the three tiers, [s.start] of a
    task, the round trip of the outbound request to the origin, the copy
    of the response body to the client, and a [w.Write] of the handler's own
    code on the response writer, which hands its bytes to the client.

    The cache operations are methods of the package defined outside the
    files at hand; here they are effects, and every statement below holds
    whatever they answer.  A cache load answers [Some (data, hdr)] when its
    error result is nil; a local store answers its error result; a round
    trip answers the response and its body stream, or [None] for an error;
    the body copy answers the bytes it read. *)
Inductive Event : Type -> Type :=
| EInit : Event unit
| EAdd (c : Counter) (n : Z) : Event unit
| ELogf (msg : string) (args : list Arg) : Event unit
| ECacheLoadMemory (hash : string) : Event (option (bytes * http.Header))
| ECacheLoadLocal (hash : string) : Event (option (bytes * http.Header))
| ECacheLoadS3 (hash : string) : Event (option (bytes * http.Header))
| ECacheStoreLocal (hash : string) (hdr : http.Header) (body : bytes)
  : Event (option error)
| ECacheStoreMemory (hash : string) (maxAge : time.Duration)
                    (hdr : http.Header) (body : bytes) : Event unit
| EStart (t : Task) : Event unit
| ERoundTrip (out : Request) : Event (option (Response * bytes))
| ECopyBody (body : bytes) : Event bytes
| EWrite (b : bytes) : Event unit.

(** A handler body: a tree of effects, ended by a result or by a panic.  The
    tree is finite: a handler body always ends. *)
Inductive Prog (A : Type) : Type :=
| Ret (a : A)
| Panic
| Vis {X : Type} (e : Event X) (k : X -> Prog A).

Arguments Ret {A} a.
Arguments Panic {A}.
Arguments Vis {A X} e k.

Fixpoint bind {A B : Type} (p : Prog A) (f : A -> Prog B) : Prog B :=
  match p with
  | Ret a => f a
  | Panic => Panic
  | Vis e k => Vis e (fun x => bind (k x) f)
  end.

Definition trigger {X : Type} (e : Event X) : Prog X := Vis e Ret.

#[export] Instance Prog_ret : MRet Prog := fun A a => Ret a.
#[export] Instance Prog_bind : MBind Prog := fun A B f p => bind p f.

Inductive outcome (A : Type) : Type :=
| Done (a : A)
| Panicked.

Arguments Done {A} a.
Arguments Panicked {A}.

(** One effect together with the answer it got. *)
Inductive Obs : Type :=
| obs : forall {X : Type}, Event X -> X -> Obs.

(** [Run p tr out]: [p] performs the effects of [tr], in this order and with
    these answers, and ends with [out]. *)
Fixpoint Run {A : Type} (p : Prog A) (tr : list Obs) (out : outcome A) : Prop :=
  match p with
  | Ret a => tr = [] /\ out = Done a
  | Panic => tr = [] /\ out = Panicked
  | Vis e k => exists x tr', tr = obs e x :: tr' /\ Run (k x) tr' out
  end.

(** An environment answers each effect and moves to its next state. *)
Definition Handler (W : Type) : Type := forall X : Type, Event X -> W -> X * W.

Fixpoint exec {W A : Type} (h : Handler W) (p : Prog A) (w : W)
  : outcome A * W * list Obs :=
  match p with
  | Ret a => (Done a, w, [])
  | Panic => (Panicked, w, [])
  | Vis e k =>
      let '(x, w1) := h _ e w in
      let '(out, w2, tr) := exec h (k x) w1 in
      (out, w2, obs e x :: tr)
  end.

(** The calls of the handler, under the names the source gives them. *)
Definition init : Prog unit := trigger EInit.
Definition Add (c : Counter) (n : Z) : Prog unit := trigger (EAdd c n).
Definition cacheLoadMemory (hash : string) := trigger (ECacheLoadMemory hash).
Definition cacheLoadLocal (hash : string) := trigger (ECacheLoadLocal hash).
Definition cacheLoadS3 (hash : string) := trigger (ECacheLoadS3 hash).
Definition cacheStoreLocal (hash : string) (hdr : http.Header) (body : bytes)
  := trigger (ECacheStoreLocal hash hdr body).
Definition cacheStoreMemory (hash : string) (maxAge : time.Duration)
                            (hdr : http.Header) (body : bytes)
  := trigger (ECacheStoreMemory hash maxAge hdr body).
Definition start (t : Task) : Prog unit := trigger (EStart t).

Definition logf (s : Server) (msg : string) (args : list Arg) : Prog unit :=
  if Logf s then trigger (ELogf msg args) else mret tt.

Definition vlogf (s : Server) (msg : string) (args : list Arg) : Prog unit :=
  if LogRequests s then logf s msg args else mret tt.

(** ** The response writer *)

Record ResponseWriter := mkWriter {
  wHeader : http.Header;
  wStatus : option Z;
  wBody : bytes
}.

Module writer.

Definition WriteHeader (w : ResponseWriter) (code : Z) : ResponseWriter :=
  match wStatus w with
  | Some _ => w
  | None => mkWriter (wHeader w) (Some code) (wBody w)
  end.

(** The first [Write] sends status 200 when none was sent. *)
Definition Write (w : ResponseWriter) (b : bytes) : ResponseWriter :=
  let w := WriteHeader w http.StatusOK in
  mkWriter (wHeader w) (wStatus w) (wBody w ++ b)%string.

Definition setHeader (w : ResponseWriter) (h : http.Header) : ResponseWriter :=
  mkWriter h (wStatus w) (wBody w).

(** [wh.Add(name, val)] for every value of every name of [hdr].  Go ranges
    over the names in no fixed order; the order only shows when two names of
    [hdr] have the same canonical form. *)
Definition addAll (wh hdr : http.Header) : http.Header :=
  map_fold (fun name vals wh =>
              foldl (fun wh val => http.Header_Add wh name val) wh vals)
           wh hdr.

(** [http.Error(w, error, code)]. *)
Definition Error (w : ResponseWriter) (err : string) (code : Z)
  : ResponseWriter :=
  let h := http.Header_Del (wHeader w) "Content-Length" in
  let h := http.Header_Set h "Content-Type" "text/plain; charset=utf-8" in
  let h := http.Header_Set h "X-Content-Type-Options" "nosniff" in
  let w := WriteHeader (setHeader w h) code in
  Write w (err ++ String (ascii_of_N 10) EmptyString)%string.

End writer.

Definition writeCachedResponse (w : ResponseWriter) (hdr : http.Header)
                               (body : bytes) : ResponseWriter :=
  let wh := writer.addAll (wHeader w) hdr in
  writer.Write (writer.setHeader w wh) body.

(** The line that [http.Error] prints: [fmt.Fprintln(w, error)]. *)
Definition errorBody (err : string) : bytes :=
  (err ++ String (ascii_of_N 10) EmptyString)%string.

(** [http.Error] and [writeCachedResponse] end in [w.Write(b)], which hands
    [b] to the client.  The writer is passed along as a value; the moment
    of the write is an effect, so that a trace shows what was done before
    the client was answered.  [w'] is the writer after the call. *)
Definition written (b : bytes) (w' : ResponseWriter) : Prog ResponseWriter :=
  trigger (EWrite b);; mret w'.

(** Modelled from the spec: [setXCacheInfo(h, result, hash)] is called by the
    handler but defined in a file of the package that is not among the
    sources.  The spec has the resolver "set X-Cache" to the disposition
    token and, when the response met the cache, "X-Cache-Id"; the uncached
    disposition is called with an empty hash.  The id that the package sends
    is not the whole hash of the spec's wording but the hash cut to its
    first twelve characters, [hash[:12]], and that is what is set here; the
    hashes of the handler have 64 characters. *)
Definition setXCacheInfo (h : http.Header) (result hash : string) : http.Header :=
  let h := http.Header_Set h "X-Cache" result in
  if String.eqb hash "" then h
  else http.Header_Set h "X-Cache-Id" (substring 0 12 hash).

Definition setRspHeader (rsp : Response) (h : http.Header) : Response :=
  mkResponse (StatusCode rsp) h.

(** ** Request rewriting *)

Record ProxyRequest := mkProxyRequest {
  In : Request;
  Out : Request
}.

Definition stringContainsCTLByte (s : string) : bool :=
  existsb (fun c => (byteZ c <? 32) || (byteZ c =? 127)) (list_ascii_of_string s).

(** [fmt.Sprintf("%x", b)]: two lower-case hex digits per byte. *)
Fixpoint hexString (s : string) : string :=
  match s with
  | EmptyString => EmptyString
  | String c s' =>
      let digit (n : N) : ascii :=
        if (n <? 10)%N then ascii_of_N (48 + n) else ascii_of_N (87 + n) in
      String (digit (N_of_ascii c / 16)%N)
             (String (digit (N_of_ascii c mod 16)%N) (hexString s'))
  end.

(** Library functions the package calls and this development leaves open:
    the SHA-256 digest, the printed form of a URL, and the part of
    [net/url]'s parser that follows its first checks. *)
Class Library := {
  sha256_Sum256 : string -> string;
  URL_String : URL -> string;
  url_parse_rest : string -> option URL
}.

Section Revproxy.

Context `{lib : Library}.

(** [url.ParseRequestURI(rawURL)]; [None] is the result [(nil, err)].  The
    parser refuses a control byte and the empty string before anything
    else, and takes ["*"] as a path. *)
Definition ParseRequestURI (rawURL : string) : option URL :=
  if stringContainsCTLByte rawURL then None
  else if String.eqb rawURL "" then None
  else if String.eqb rawURL "*" then Some (mkURL "" "" "" "*" "")
  else url_parse_rest rawURL.

(** [rewriteRequest] drops the error of [ParseRequestURI] and assigns to
    [u.Host] at once: with [u] nil that is a nil-pointer dereference. *)
Definition rewriteRequest (pr : ProxyRequest) : outcome ProxyRequest :=
  let u := ParseRequestURI (RequestURI (In pr)) in
  match u with
  | None => Panicked
  | Some u =>
      let u := mkURL (Scheme u) (Opaque u) (Host (In pr)) (Path u) (RawQuery u) in
      let u := if String.eqb (Scheme u) ""
               then mkURL "https" (Opaque u) (UHost u) (Path u) (RawQuery u)
               else u in
      let out := Out pr in
      Done (mkProxyRequest (In pr)
              (mkRequest (Method out) u (UHost u) (RequestURI out) (ReqHeader out)))
  end.

Definition hashRequestURL (u : URL) : string :=
  hexString (sha256_Sum256 (URL_String u)).

(** ** The reverse proxy of [net/http/httputil]

    [updateCache] is the variable of [ServeHTTP] that the response hook
    assigns; it is passed through and returned.  Its argument is the
    content of the capture buffer when it is called. *)
Definition UpdateCache : Type := bytes -> Prog unit.

(** [ServeHTTP] of [httputil.ReverseProxy], as far as the handler can tell:
    rewrite a clone of the request, send it, hand the response to the hook,
    then copy header, status and body to the client.  A failed round trip is
    answered by the default error handler, 502 without a body, and the hook
    is not called.  The result carries the bytes that went through the body
    copy.

    Left out: the grooming of hop-by-hop header fields; the proxy's refusal
    of a protocol upgrade, which answers 502 before [Rewrite] is called when
    a Connection header names the token Upgrade and the Upgrade header has a
    byte outside printable ASCII (a request without a Connection header is
    never refused there); the switch of protocols on a 101 response; and a
    body copy that fails. *)
Definition ReverseProxy_ServeHTTP
    (Rewrite : ProxyRequest -> outcome ProxyRequest)
    (ModifyResponse : option (Response -> Prog (Response * UpdateCache)))
    (updateCache : UpdateCache)
    (w : ResponseWriter) (r : Request)
  : Prog (ResponseWriter * UpdateCache * bytes) :=
  match Rewrite (mkProxyRequest r r) with
  | Panicked => Panic
  | Done pr =>
      res ← trigger (ERoundTrip (Out pr));
      match res with
      | None => mret (writer.WriteHeader w http.StatusBadGateway, updateCache, "")
      | Some (rsp, body) =>
          '(rsp, updateCache) ←
            match ModifyResponse with
            | Some hook => hook rsp
            | None => mret (rsp, updateCache)
            end;
          let w := writer.setHeader w (writer.addAll (wHeader w) (RspHeader rsp)) in
          let w := writer.WriteHeader w (StatusCode rsp) in
          copied ← trigger (ECopyBody body);
          mret (mkWriter (wHeader w) (wStatus w) (wBody w ++ copied)%string,
                updateCache, copied)
      end
  end.

(** ** The handler *)

(** The function that [ServeHTTP] installs as [proxy.ModifyResponse]. *)
Definition modifyResponse (s : Server) (hash : string) (rsp : Response)
  : Prog (Response * UpdateCache) :=
  let '(maxAge, isVolatile) := canMemoryCache rsp in
  let canCacheResponse := canCacheResponse rsp in
  if negb canCacheResponse && negb isVolatile then
    let rsp := setRspHeader rsp (setXCacheInfo (RspHeader rsp) "fetch, uncached" "") in
    Add rspNotCached 1;;
    vlogf s "rp E H:%s fetch RC:no (%v elapsed)" [AStr hash; AElapsed];;
    mret (rsp, (fun _ => mret tt) : UpdateCache)
  else if negb canCacheResponse && isVolatile then
    let rsp := setRspHeader rsp
                 (setXCacheInfo (RspHeader rsp) "fetch, cached, volatile" hash) in
    mret (rsp, (fun body =>
      cacheStoreMemory hash maxAge (RspHeader rsp) body;;
      Add rspSaveMem 1;;
      vlogf s "rp E H:%s fetch RC:mem B:%d (%v elapsed)"
            [AStr hash; AInt (len body); AElapsed]) : UpdateCache)
  else
    let rsp := setRspHeader rsp (setXCacheInfo (RspHeader rsp) "fetch, cached" hash) in
    mret (rsp, (fun body =>
      err ← cacheStoreLocal hash (RspHeader rsp) body;
      match err with
      | Some e =>
          Add rspSaveError 1;;
          logf s "save %q to cache: %v" [AStr hash; AErr e]
      | None =>
          Add rspSave 1;;
          Add rspSaveBytes (len body);;
          start (cacheStoreS3 hash (RspHeader rsp) body)
      end;;
      vlogf s "rp E H:%s fetch RC:yes B:%d (%v elapsed)"
            [AStr hash; AInt (len body); AElapsed]) : UpdateCache).

(** [ServeHTTP(w, r)]; the result is the response writer as the handler
    leaves it.  The block under [if canCache] answers [Some w'] where the
    source returns from inside it. *)
Definition ServeHTTP (s : Server) (w : ResponseWriter) (r : Request)
  : Prog ResponseWriter :=
  init;;
  Add reqReceived 1;;
  if negb (hostMatchesTarget (Host r) (Targets s)) then
    logf s "reject proxy request for non-target %q" [AStr (Host r)];;
    written (errorBody (http.StatusText http.StatusBadGateway))
            (writer.Error w (http.StatusText http.StatusBadGateway)
                          http.StatusBadGateway)
  else
    let hash := hashRequestURL (RURL r) in
    let canCache := canCacheRequest r in
    vlogf s "rp B U:%q H:%s C:%v"
          [AStr (URL_String (RURL r)); AStr hash; ABool canCache];;
    served ←
      (if canCache then
         mem ← cacheLoadMemory hash;
         match mem with
         | Some (data, hdr) =>
             Add reqMemoryHit 1;;
             let hdr := setXCacheInfo hdr "hit, memory" hash in
             w ← written data (writeCachedResponse w hdr data);
             vlogf s "rp E H:%s hit mem B:%d (%v elapsed)"
                   [AStr hash; AInt (len data); AElapsed];;
             mret (Some w)
         | None =>
         loc ← cacheLoadLocal hash;
         match loc with
         | Some (data, hdr) =>
             Add reqLocalHit 1;;
             let hdr := setXCacheInfo hdr "hit, local" hash in
             w ← written data (writeCachedResponse w hdr data);
             vlogf s "rp E H:%s hit disk B:%d (%v elapsed)"
                   [AStr hash; AInt (len data); AElapsed];;
             mret (Some w)
         | None =>
         Add reqLocalMiss 1;;
         rem ← cacheLoadS3 hash;
         match rem with
         | Some (data, hdr) =>
             Add reqFaultHit 1;;
             err ← cacheStoreLocal hash hdr data;
             match err with
             | Some e => logf s "update %q local: %v" [AStr hash; AErr e]
             | None => mret tt
             end;;
             let hdr := setXCacheInfo hdr "hit, remote" hash in
             w ← written data (writeCachedResponse w hdr data);
             vlogf s "rp E H:%s hit S3 B:%d (%v elapsed)"
                   [AStr hash; AInt (len data); AElapsed];;
             mret (Some w)
         | None =>
             Add reqFaultMiss 1;;
             vlogf s "rp - H:%s miss" [AStr hash];;
             mret None
         end end end
       else mret None);
    match served with
    | Some w => mret w
    | None =>
        Add reqForward 1;;
        '(w, updateCache, buf) ←
          ReverseProxy_ServeHTTP
            rewriteRequest
            (if canCache then Some (modifyResponse s hash) else None)
            (fun _ => mret tt)
            w r;
        updateCache buf;;
        mret w
    end.

End Revproxy.

(** ** Reading traces *)

Definition is_cache_lookup {X : Type} (e : Event X) : bool :=
  match e with
  | ECacheLoadMemory _ | ECacheLoadLocal _ | ECacheLoadS3 _ => true
  | _ => false
  end.

(** Stores into a tier; starting the task of [cacheStoreS3] counts as the
    write to the remote tier. *)
Definition is_cache_write {X : Type} (e : Event X) : bool :=
  match e with
  | ECacheStoreLocal _ _ _ | ECacheStoreMemory _ _ _ _ | EStart _ => true
  | _ => false
  end.

Definition is_cache_op {X : Type} (e : Event X) : bool :=
  is_cache_lookup e || is_cache_write e.

Definition obs_is (f : forall X : Type, Event X -> bool) (o : Obs) : bool :=
  match o with
  | obs e _ => f _ e
  end.

(** No effect of the trace satisfies [f]. *)
Definition none_of (f : forall X : Type, Event X -> bool) (tr : list Obs) : bool :=
  forallb (fun o => negb (obs_is f o)) tr.

(** The answers of [tr] are those of the environment [ans], which answers
    an effect the same way each time. *)
Fixpoint consistent (ans : forall X : Type, Event X -> X) (tr : list Obs) : Prop :=
  match tr with
  | [] => True
  | obs e x :: tr' => ans _ e = x /\ consistent ans tr'
  end.

(** The counters a trace adds to, with the amounts. *)
Fixpoint adds_of (tr : list Obs) : list (Counter * Z) :=
  match tr with
  | [] => []
  | obs e _ :: tr' =>
      match e with
      | EAdd c n => (c, n) :: adds_of tr'
      | _ => adds_of tr'
      end
  end.

(** The requests a trace sends to the origin. *)
Fixpoint round_trips (tr : list Obs) : list Request :=
  match tr with
  | [] => []
  | obs e _ :: tr' =>
      match e with
      | ERoundTrip out => out :: round_trips tr'
      | _ => round_trips tr'
      end
  end.


(** A successful local store, as [(hash, hdr, body)]. *)
Definition saved_entry (o : Obs) : option (string * http.Header * bytes) :=
  match o with
  | obs e x =>
      match e in Event X return X -> option (string * http.Header * bytes) with
      | ECacheStoreLocal hash hdr body =>
          fun err => match err with
                     | None => Some (hash, hdr, body)
                     | Some _ => None
                     end
      | _ => fun _ => None
      end x
  end.

(** A remote store handed to the task group, as [(hash, hdr, body)]. *)
Definition pushed_entry (o : Obs) : option (string * http.Header * bytes) :=
  match o with
  | obs e _ =>
      match e with
      | EStart (cacheStoreS3 hash hdr body) => Some (hash, hdr, body)
      | _ => None
      end
  end.

(** The remote stores a trace hands to the task group. *)
Definition pushes_of (tr : list Obs) : list (string * http.Header * bytes) :=
  omap pushed_entry tr.

(** Every remote store of [tr] comes after a successful local store of the
    same entry, given the entries [saved] before [tr]. *)
Fixpoint push_after_save (saved : list (string * http.Header * bytes))
                         (tr : list Obs) : Prop :=
  match tr with
  | [] => True
  | o :: tr' =>
      match pushed_entry o with
      | Some entry => List.In entry saved
      | None => True
      end
      /\ push_after_save
           (match saved_entry o with
            | Some entry => entry :: saved
            | None => saved
            end) tr'
  end.

(** ** A reference environment *)

#[export] Instance Counter_eq_dec : EqDecision Counter.
Proof. solve_decision. Defined.

(** Modelled from the spec: the three tiers as maps from hash to entry
    (sections 4.D to 4.F), seen by one request: no expiry and no eviction
    happen while it runs.  [diskFails] makes every local store fail;
    [origin] is the upstream server; started tasks wait in [tasks]. *)
Record World := mkWorld {
  counters : Counter -> Z;
  memory : gmap string (bytes * http.Header);
  localDir : gmap string (bytes * http.Header);
  bucket : gmap string (bytes * http.Header);
  tasks : list Task;
  logs : list (string * list Arg);
  diskFails : bool;
  origin : Request -> option (Response * bytes)
}.


Definition handle : Handler World := fun X e =>
  match e in Event X return World -> X * World with
  | EInit => fun w => (tt, w)
  | EAdd c n => fun w =>
      (tt, mkWorld (fun c' => if decide (c' = c)
                              then time.wrap64 (counters w c + n)
                              else counters w c')
                   (memory w) (localDir w) (bucket w) (tasks w) (logs w)
                   (diskFails w) (origin w))
  | ELogf msg args => fun w =>
      (tt, mkWorld (counters w) (memory w) (localDir w) (bucket w) (tasks w)
                   (logs w ++ [(msg, args)]) (diskFails w) (origin w))
  | ECacheLoadMemory hash => fun w => (memory w !! hash, w)
  | ECacheLoadLocal hash => fun w => (localDir w !! hash, w)
  | ECacheLoadS3 hash => fun w => (bucket w !! hash, w)
  | ECacheStoreLocal hash hdr body => fun w =>
      if diskFails w then (Some (mkError "disk"), w)
      else (None, mkWorld (counters w) (memory w)
                          (<[hash := (body, hdr)]> (localDir w))
                          (bucket w) (tasks w) (logs w) (diskFails w) (origin w))
  | ECacheStoreMemory hash maxAge hdr body => fun w =>
      (tt, mkWorld (counters w) (<[hash := (body, hdr)]> (memory w))
                   (localDir w) (bucket w) (tasks w) (logs w)
                   (diskFails w) (origin w))
  | EStart t => fun w =>
      (tt, mkWorld (counters w) (memory w) (localDir w) (bucket w)
                   (tasks w ++ [t]) (logs w) (diskFails w) (origin w))
  | ERoundTrip out => fun w => (origin w out, w)
  | ECopyBody body => fun w => (body, w)
  | EWrite b => fun w => (tt, w)
  end.

(** ** The Cache-Control parser, stated directive by directive *)

(** The element [v] of the header, trimmed and cut at its first ["="]. *)
Definition directive (v : string) : string * string * bool :=
  strings.Cut (strings.TrimSpace v) "="%char.

Definition directive_key (v : string) : string := (directive v).1.1.

(** The duration the element [v] gives, when [v] is a [max-age] directive
    whose value [strconv.Atoi] accepts. *)
Definition max_age_of (v : string) : option time.Duration :=
  let '(key, val, ok) := directive v in
  if ok && String.eqb key "max-age"
  then (fun sec => time.mul sec time.Second) <$> strconv.Atoi val
  else None.

(** The result of the parser as the specification words it: every key, and
    the last [max-age] that parses, zero when there is none. *)
Definition parseCacheControl_spec (s : string) : cacheControl :=
  let elems := strings.Split s ","%char in
  mkCacheControl (list_to_set (directive_key <$> elems))
                 (default 0 (last (omap max_age_of elems))).


(** ** The runs the specification describes *)

(** A response writer as the HTTP server hands it to the handler: nothing
    set, nothing sent. *)
Definition newWriter : ResponseWriter := mkWriter ∅ None "".

(** The field names of a header map are in canonical form, as they are in
    every map built with [Add] and [Set]. *)
Definition canonical_keys (h : http.Header) : Prop :=
  forall k vals, h !! k = Some vals -> http.CanonicalMIMEHeaderKey k = k.

(** What [logf] and [vlogf] leave in the trace. *)
Definition logged (s : Server) (msg : string) (args : list Arg) : list Obs :=
  if Logf s then [obs (ELogf msg args) tt] else [].

Definition vlogged (s : Server) (msg : string) (args : list Arg) : list Obs :=
  if LogRequests s then logged s msg args else [].

Section Traces.

Context `{lib : Library}.

(** A request for a host that is not a target. *)
Definition reject_trace (s : Server) (r : Request) : list Obs :=
  [obs EInit tt; obs (EAdd reqReceived 1) tt]
  ++ logged s "reject proxy request for non-target %q" [AStr (Host r)]
  ++ [obs (EWrite (errorBody "Bad Gateway")) tt].

(** The steps of every request for a target, up to the tier lookups. *)
Definition begin_trace (s : Server) (r : Request) : list Obs :=
  [obs EInit tt; obs (EAdd reqReceived 1) tt]
  ++ vlogged s "rp B U:%q H:%s C:%v"
       [AStr (URL_String (RURL r)); AStr (hashRequestURL (RURL r));
        ABool (canCacheRequest r)].


(** All three tiers miss. *)
Definition miss_trace (s : Server) (r : Request) : list Obs :=
  let hash := hashRequestURL (RURL r) in
  begin_trace s r
  ++ [obs (ECacheLoadMemory hash) None;
      obs (ECacheLoadLocal hash) None;
      obs (EAdd reqLocalMiss 1) tt;
      obs (ECacheLoadS3 hash) None;
      obs (EAdd reqFaultMiss 1) tt]
  ++ vlogged s "rp - H:%s miss" [AStr hash].

(** After a miss the origin answers [rsp], which is durably cacheable;
    [copied] is what the body copy read, and the local store of the
    updated header and [copied] answers [err]. *)
Definition durable_trace (s : Server) (r : Request) (out : Request)
    (rsp : Response) (body copied : bytes) (err : option error) : list Obs :=
  let hash := hashRequestURL (RURL r) in
  let hdr := setXCacheInfo (RspHeader rsp) "fetch, cached" hash in
  miss_trace s r
  ++ [obs (EAdd reqForward 1) tt;
      obs (ERoundTrip out) (Some (rsp, body));
      obs (ECopyBody body) copied;
      obs (ECacheStoreLocal hash hdr copied) err]
  ++ match err with
     | Some e =>
         [obs (EAdd rspSaveError 1) tt]
         ++ logged s "save %q to cache: %v" [AStr hash; AErr e]
     | None =>
         [obs (EAdd rspSave 1) tt;
          obs (EAdd rspSaveBytes (len copied)) tt;
          obs (EStart (cacheStoreS3 hash hdr copied)) tt]
     end
  ++ vlogged s "rp E H:%s fetch RC:yes B:%d (%v elapsed)"
       [AStr hash; AInt (len copied); AElapsed].

(** A request that may not be cached goes to the origin at once; the
    origin answers [res], and [copied] is what the body copy read. *)
Definition bypass_trace (s : Server) (r : Request) (out : Request)
    (rsp : Response) (body copied : bytes) : list Obs :=
  begin_trace s r
  ++ [obs (EAdd reqForward 1) tt;
      obs (ERoundTrip out) (Some (rsp, body));
      obs (ECopyBody body) copied].

(** What the reverse proxy leaves in the writer [w] for the response
    [rsp] with the body bytes [copied]. *)
Definition proxied (w : ResponseWriter) (rsp : Response) (copied : bytes)
  : ResponseWriter :=
  let w1 := writer.WriteHeader
              (writer.setHeader w (writer.addAll (wHeader w) (RspHeader rsp)))
              (StatusCode rsp) in
  mkWriter (wHeader w1) (wStatus w1) (wBody w1 ++ copied)%string.

End Traces.

(** ** Stand-ins for the open library functions, to run examples *)

(** Not SHA-256: 32 bytes made from the first byte of the input. *)
Definition demo_Sum256 (s : string) : string :=
  let c := match s with String c _ => c | EmptyString => "0"%char end in
  string_of_list_ascii (repeat c 32).

Definition demo_URL_String (u : URL) : string :=
  (Scheme u ++ "://" ++ UHost u ++ Path u)%string.

(** Takes an absolute path as it is and refuses everything else. *)
Definition demo_parse_rest (s : string) : option URL :=
  match s with
  | String "/"%char _ => Some (mkURL "" "" "" s "")
  | _ => None
  end.

#[export] Instance demo_library : Library := {|
  sha256_Sum256 := demo_Sum256;
  URL_String := demo_URL_String;
  url_parse_rest := demo_parse_rest
|}.

Definition demo_ServeHTTP := @ServeHTTP demo_library.

Definition demo_server : Server := mkServer ["x.example"] "/var/cache" "" true true.

Definition demo_url : URL := mkURL "http" "" "x.example" "/a" "".

(** [GET http://x.example/a]. *)
Definition demo_get : Request := mkRequest "GET" demo_url "x.example" "/a" ∅.

(** The same with [Cache-Control: no-store]. *)
Definition demo_get_no_store : Request :=
  mkRequest "GET" demo_url "x.example" "/a" {[ "Cache-Control" := ["no-store"] ]}.

(** A POST for a host that is not a target. *)
Definition demo_post_elsewhere : Request :=
  mkRequest "POST" (mkURL "http" "" "other.example" "/a" "") "other.example" "/a" ∅.

(** [200 OK] with [Cache-Control: immutable]. *)
Definition demo_immutable : Response :=
  mkResponse 200 {[ "Cache-Control" := ["immutable"] ]}.

Definition demo_world (diskFails : bool) : World :=
  mkWorld (fun _ => 0) ∅ ∅ ∅ [] [] diskFails
          (fun _ => Some (demo_immutable, "hello")).

(** The request [demo_get] as the proxy sends it out. *)
Definition demo_out (r : Request) : Request :=
  mkRequest (Method r) (mkURL "https" "" "x.example" "/a" "") "x.example"
            (RequestURI r) (ReqHeader r).

(** An entry of the remote tier. *)
Definition demo_entry_header : http.Header := {[ "Content-Type" := ["text/plain"] ]}.

(** ** More readers of traces *)

Inductive Tier := memoryTier | localTier | remoteTier.

(** A tier lookup of a trace: the tier, the key, and whether it hit. *)
Definition lookup_of (o : Obs) : option (Tier * string * bool) :=
  match o with
  | obs e x =>
      match e in Event X return X -> option (Tier * string * bool) with
      | ECacheLoadMemory hash => fun x =>
          Some (memoryTier, hash, match x with Some _ => true | None => false end)
      | ECacheLoadLocal hash => fun x =>
          Some (localTier, hash, match x with Some _ => true | None => false end)
      | ECacheLoadS3 hash => fun x =>
          Some (remoteTier, hash, match x with Some _ => true | None => false end)
      | _ => fun _ => None
      end x
  end.

Definition lookups_of (tr : list Obs) : list (Tier * string * bool) :=
  omap lookup_of tr.

(** The key of a cache operation. *)
Definition cache_key {X : Type} (e : Event X) : option string :=
  match e with
  | ECacheLoadMemory hash | ECacheLoadLocal hash | ECacheLoadS3 hash => Some hash
  | ECacheStoreLocal hash _ _ | ECacheStoreMemory hash _ _ _ => Some hash
  | EStart (cacheStoreS3 hash _ _) => Some hash
  | _ => None
  end.

Definition cache_keys (tr : list Obs) : list string :=
  omap (fun o => match o with obs e _ => cache_key e end) tr.

(** The stores of a trace: into memory, into the local cache (with the
    answer), and the remote stores handed to the task group. *)
Definition memory_stores (tr : list Obs)
  : list (string * time.Duration * http.Header * bytes) :=
  omap (fun o => match o with
                 | obs e _ =>
                     match e with
                     | ECacheStoreMemory hash maxAge hdr body =>
                         Some (hash, maxAge, hdr, body)
                     | _ => None
                     end
                 end) tr.

Definition local_stores (tr : list Obs) : list (string * http.Header * bytes) :=
  omap (fun o => match o with
                 | obs e _ =>
                     match e with
                     | ECacheStoreLocal hash hdr body => Some (hash, hdr, body)
                     | _ => None
                     end
                 end) tr.

(** The lines a trace passes to [s.Logf]. *)
Definition logs_of (tr : list Obs) : list (string * list Arg) :=
  omap (fun o => match o with
                 | obs e _ =>
                     match e with
                     | ELogf msg args => Some (msg, args)
                     | _ => None
                     end
                 end) tr.

Definition same_counter (a b : Counter) : bool :=
  match a, b with
  | reqReceived, reqReceived | reqMemoryHit, reqMemoryHit
  | reqLocalHit, reqLocalHit | reqLocalMiss, reqLocalMiss
  | reqFaultHit, reqFaultHit | reqFaultMiss, reqFaultMiss
  | reqForward, reqForward | rspSave, rspSave | rspSaveMem, rspSaveMem
  | rspSaveError, rspSaveError | rspSaveBytes, rspSaveBytes
  | rspPush, rspPush | rspPushError, rspPushError
  | rspPushBytes, rspPushBytes | rspNotCached, rspNotCached => true
  | _, _ => false
  end.

(** What a trace adds to the counter [c], in all. *)
Definition count (c : Counter) (tr : list Obs) : Z :=
  foldr (fun '(c', n) acc => if same_counter c' c then n + acc else acc) 0
        (adds_of tr).

Section MoreTraces.

Context `{lib : Library}.

(** The memory tier has [(data, hdr)]. *)
Definition memory_hit_trace (s : Server) (r : Request) (data : bytes)
    (hdr : http.Header) : list Obs :=
  let hash := hashRequestURL (RURL r) in
  begin_trace s r
  ++ [obs (ECacheLoadMemory hash) (Some (data, hdr));
      obs (EAdd reqMemoryHit 1) tt;
      obs (EWrite data) tt]
  ++ vlogged s "rp E H:%s hit mem B:%d (%v elapsed)"
       [AStr hash; AInt (len data); AElapsed].

(** The memory tier misses and the local tier has [(data, hdr)]. *)
Definition local_hit_trace (s : Server) (r : Request) (data : bytes)
    (hdr : http.Header) : list Obs :=
  let hash := hashRequestURL (RURL r) in
  begin_trace s r
  ++ [obs (ECacheLoadMemory hash) None;
      obs (ECacheLoadLocal hash) (Some (data, hdr));
      obs (EAdd reqLocalHit 1) tt;
      obs (EWrite data) tt]
  ++ vlogged s "rp E H:%s hit disk B:%d (%v elapsed)"
       [AStr hash; AInt (len data); AElapsed].

(** After a miss the origin answers [rsp], which can be kept in memory
    only, for [maxAge]. *)
Definition volatile_trace (s : Server) (r : Request) (out : Request)
    (rsp : Response) (maxAge : time.Duration) (body copied : bytes) : list Obs :=
  let hash := hashRequestURL (RURL r) in
  let hdr := setXCacheInfo (RspHeader rsp) "fetch, cached, volatile" hash in
  miss_trace s r
  ++ [obs (EAdd reqForward 1) tt;
      obs (ERoundTrip out) (Some (rsp, body));
      obs (ECopyBody body) copied;
      obs (ECacheStoreMemory hash maxAge hdr copied) tt;
      obs (EAdd rspSaveMem 1) tt]
  ++ vlogged s "rp E H:%s fetch RC:mem B:%d (%v elapsed)"
       [AStr hash; AInt (len copied); AElapsed].

(** After a miss the origin answers [rsp], which cannot be cached. *)
Definition uncached_trace (s : Server) (r : Request) (out : Request)
    (rsp : Response) (body copied : bytes) : list Obs :=
  let hash := hashRequestURL (RURL r) in
  miss_trace s r
  ++ [obs (EAdd reqForward 1) tt;
      obs (ERoundTrip out) (Some (rsp, body));
      obs (EAdd rspNotCached 1) tt]
  ++ vlogged s "rp E H:%s fetch RC:no (%v elapsed)" [AStr hash; AElapsed]
  ++ [obs (ECopyBody body) copied].

(** The steps before the reverse proxy is called: none of the tiers is
    asked for a request that may not be cached, all three miss otherwise. *)
Definition forward_trace (s : Server) (r : Request) : list Obs :=
  (if canCacheRequest r then miss_trace s r else begin_trace s r)
  ++ [obs (EAdd reqForward 1) tt].

End MoreTraces.

(** ** Hex digits *)

Definition is_lower_hex (c : ascii) : bool := byte_in 48 57 c || byte_in 97 102 c.

(** The value of a hex digit, to read [hexString] back. *)
Definition hex_value (c : ascii) : N :=
  if byte_in 48 57 c then N_of_ascii c - 48 else N_of_ascii c - 87.

Fixpoint unhexString (s : string) : string :=
  match s with
  | String hi (String lo s') =>
      String (ascii_of_N (16 * hex_value hi + hex_value lo)) (unhexString s')
  | _ => EmptyString
  end.

(** ** Metrics *)

(** The calls of [m.Set] in [Metrics], in order. *)
Definition Metrics_calls : list (string * Counter) :=
  [("req_received", reqReceived);
   ("req_memory_hit", reqMemoryHit);
   ("req_local_hit", reqLocalHit);
   ("req_local_miss", reqLocalMiss);
   ("req_fault_hit", reqFaultHit);
   ("req_fault_miss", reqFaultMiss);
   ("req_forward", reqForward);
   ("rsp_save", rspSave);
   ("rsp_save_memory", rspSaveMem);
   ("rsp_save_error", rspSaveError);
   ("rsp_save_bytes", rspSaveBytes);
   ("rsp_push", rspPush);
   ("rsp_push_error", rspPushError);
   ("rsp_push_bytes", rspPushBytes);
   ("rsp_not_cached", rspNotCached)].

(** [Metrics()]: a new [expvar.Map] after these calls; [Set] puts the
    variable under the key, in place of what was there. *)
Definition Metrics : gmap string Counter :=
  foldl (fun m '(name, c) => <[name := c]> m) ∅ Metrics_calls.

(** The name under which [Metrics] publishes a counter. *)
Definition metric_name (c : Counter) : string :=
  match c with
  | reqReceived => "req_received"
  | reqMemoryHit => "req_memory_hit"
  | reqLocalHit => "req_local_hit"
  | reqLocalMiss => "req_local_miss"
  | reqFaultHit => "req_fault_hit"
  | reqFaultMiss => "req_fault_miss"
  | reqForward => "req_forward"
  | rspSave => "rsp_save"
  | rspSaveMem => "rsp_save_memory"
  | rspSaveError => "rsp_save_error"
  | rspSaveBytes => "rsp_save_bytes"
  | rspPush => "rsp_push"
  | rspPushError => "rsp_push_error"
  | rspPushBytes => "rsp_push_bytes"
  | rspNotCached => "rsp_not_cached"
  end.

(** ** Bytes that trimming and splitting leave alone *)

(** An ASCII byte that is not white space. *)
Definition plain (c : ascii) : bool :=
  (byteZ c <? utf8.RuneSelf) && negb (strings.asciiSpace c).

(** A decimal digit or a sign. *)
Definition digit_or_sign (c : ascii) : bool :=
  strconv.isDigit c || Ascii.eqb c "-"%char || Ascii.eqb c "+"%char.

(** * Package gcsutil: headers kept out of the request signature *)

Module gcsutil.

(** The request of a finalize step: a [smithyhttp.Request], of which the
    header is what these steps touch, or a value of another type, known by
    the name [%T] prints. *)
Inductive FinalizeRequest :=
| SmithyRequest (hdr : http.Header)
| OtherRequest (typeName : string).

(** The context, as far as these steps use it: the stack value under
    [ignoredHeadersKey{}], if there is one. *)
Definition StackValue : Type := option (gmap string string).

(** What a step returns: the result of the next handler as it is, or zero
    output and metadata with a [v4.SigningError] of this text. *)
Inductive Result (R : Type) :=
| Next (res : R)
| SigningError (msg : string).

Arguments Next {R} res.
Arguments SigningError {R} msg.

(** One round of the loop of [ignoreHeaders]. *)
Definition ignoreHeaders_step (st : gmap string string * http.Header)
    (h : string) : gmap string string * http.Header :=
  (<[h := http.Header_Get st.2 h]> st.1, http.Header_Del st.2 h).

(** The loop of [ignoreHeaders]: the map [ignored] and the header it
    leaves. *)
Definition ignoreHeaders_loop (headers : list string) (hdr : http.Header)
  : gmap string string * http.Header :=
  foldl ignoreHeaders_step (∅, hdr) headers.

Definition ignoreHeaders {R : Type} (headers : list string)
    (next : StackValue -> FinalizeRequest -> R)
    (ctx : StackValue) (req : FinalizeRequest) : Result R :=
  match req with
  | OtherRequest t =>
      SigningError
        ("(ignoreHeaders) unexpected request middleware type " ++ t)%string
  | SmithyRequest hdr =>
      let '(ignored, hdr) := ignoreHeaders_loop headers hdr in
      Next (next (Some ignored) (SmithyRequest hdr))
  end.

(** The loop of [restoreIgnored] over the entries of the map in the order
    [entries]. *)
Definition restoreIgnored_loop (entries : list (string * string))
    (hdr : http.Header) : http.Header :=
  foldl (fun hdr '(k, v) => http.Header_Set hdr k v) hdr entries.

(** Go ranges over a map in an order of its choosing: [entries] is one such
    order for [m]. *)
Definition ranges (m : gmap string string) (entries : list (string * string))
  : Prop :=
  entries ≡ₚ map_to_list m.

(** [restoreIgnored], with [range] giving the order in which the map is
    gone through.  A context without the stack value gives the nil map, and
    the loop does nothing. *)
Definition restoreIgnored {R : Type}
    (range : gmap string string -> list (string * string))
    (next : StackValue -> FinalizeRequest -> R)
    (ctx : StackValue) (req : FinalizeRequest) : Result R :=
  match req with
  | OtherRequest t =>
      SigningError
        ("(restoreIgnored) unexpected request middleware type " ++ t)%string
  | SmithyRequest hdr =>
      let ignored := default ∅ ctx in
      Next (next ctx (SmithyRequest (restoreIgnored_loop (range ignored) hdr)))
  end.

End gcsutil.

(** * Cache paths *)

Module path.

(** [strings.Join(elems, "/")]. *)
Fixpoint joinSlash (elems : list string) : string :=
  match elems with
  | [] => ""
  | e :: rest =>
      match rest with
      | [] => e
      | _ :: _ => (e ++ "/" ++ joinSlash rest)%string
      end
  end.

(** One name element of the path in [Clean]; [out] has the elements kept
    so far, the last one first.  Empty elements and [.] are dropped; [..]
    takes back the element before it, if there is one that is not [..]
    itself, is dropped at the root, and is kept at the start of a path that
    is not rooted. *)
Definition Clean_step (rooted : bool) (out : list string) (elem : string)
  : list string :=
  if String.eqb elem "" || String.eqb elem "." then out
  else if String.eqb elem ".." then
    match out with
    | e :: out' => if String.eqb e ".." then ".." :: out else out'
    | [] => if rooted then [] else [".."]
    end
  else elem :: out.

(** [path.Clean(p)]. *)
Definition Clean (p : string) : string :=
  match p with
  | EmptyString => "."
  | String c _ =>
      let rooted := Ascii.eqb c "/" in
      let out := foldl (Clean_step rooted) [] (strings.Split p "/") in
      let s := ((if rooted then "/" else "") ++ joinSlash (rev out))%string in
      if String.eqb s "" then "." else s
  end.

(** The buffer of [Join]: an empty element is left out as long as the
    buffer is empty. *)
Fixpoint Join_buf (buf : string) (elem : list string) : string :=
  match elem with
  | [] => buf
  | e :: rest =>
      if negb (String.eqb buf "") || negb (String.eqb e "")
      then Join_buf ((if String.eqb buf "" then buf else buf ++ "/") ++ e)%string
                    rest
      else Join_buf buf rest
  end.

(** [path.Join(elem...)]; on Unix [filepath.Join] is the same function. *)
Definition Join (elem : list string) : string :=
  if forallb (fun e => String.eqb e "") elem then ""
  else Clean (Join_buf "" elem).

End path.

(** [hash[:2]]: slicing panics when the string has fewer than two bytes. *)
Definition slice2 (hash : string) : outcome string :=
  if (String.length hash <? 2)%nat then Panicked
  else Done (substring 0 2 hash).

Definition makePath (s : Server) (hash : string) : outcome string :=
  match slice2 hash with
  | Panicked => Panicked
  | Done hh => Done (path.Join [Local s; hh; hash])
  end.

Definition makeKey (s : Server) (hash : string) : outcome string :=
  match slice2 hash with
  | Panicked => Panicked
  | Done hh => Done (path.Join [KeyPrefix s; hh; hash])
  end.

(** No name element of the path is [.] or [..]. *)
Definition no_dots (p : string) : bool :=
  forallb (fun e => negb (String.eqb e ".") && negb (String.eqb e ".."))
          (strings.Split p "/").

(** The name elements of a path that are not empty. *)
Definition names (p : string) : list string :=
  List.filter (fun e => negb (String.eqb e "")) (strings.Split p "/").

Definition rooted (p : string) : bool :=
  match p with
  | String c _ => Ascii.eqb c "/"
  | EmptyString => false
  end.

(** Where an entry is put under the directory or key prefix [p]. *)
Definition layout (p hash : string) : string :=
  ((if rooted p then "/" else "")
   ++ path.joinSlash (names p ++ [substring 0 2 hash; hash]))%string.

(** ** More examples *)

(** [200 OK] with [Cache-Control: max-age=60]. *)
Definition demo_volatile : Response :=
  mkResponse 200 {[ "Cache-Control" := ["max-age=60"] ]}.

(** [200 OK] with [Cache-Control: must-revalidate, max-age=5184001]. *)
Definition demo_revalidate : Response :=
  mkResponse 200 {[ "Cache-Control" := ["must-revalidate, max-age=5184001"] ]}.

(** [200 OK] with a max-age of 9223372037 seconds. *)
Definition demo_overflow : Response :=
  mkResponse 200 {[ "Cache-Control" := ["max-age=9223372037"] ]}.

(** [200 OK] without a Cache-Control header. *)
Definition demo_plain : Response := mkResponse 200 ∅.


(** A request header with one value of Accept-Encoding. *)
Definition demo_signed_header : http.Header :=
  {[ "Accept-Encoding" := ["gzip"] ]}.

(** The server of the examples without a logging function. *)
Definition demo_quiet_server : Server :=
  mkServer ["x.example"] "/var/cache" "" false true.
(** ** Basic facts *)

Lemma Has_true (ks : gset string) (k : string) : Has ks k = true <-> k ∈ ks.
Proof. unfold Has. apply bool_decide_eq_true. Qed.

Lemma Has_false (ks : gset string) (k : string) : Has ks k = false <-> k ∉ ks.
Proof. unfold Has. apply bool_decide_eq_false. Qed.

Lemma goodLongTime_days : goodLongTime = 1440 * time.Hour.
Proof. reflexivity. Qed.

Lemma parseCacheControl_step_spec (out : cacheControl) (v : string) :
  parseCacheControl_step out v
  = mkCacheControl (Keys out ∪ {[directive_key v]})
                   (default (MaxAge out) (max_age_of v)).
Proof.
  unfold parseCacheControl_step, directive_key, max_age_of, directive.
  destruct (strings.Cut (strings.TrimSpace v) "=") as [[key val] ok]; simpl.
  destruct (ok && String.eqb key "max-age"); [|reflexivity].
  destruct (strconv.Atoi val); reflexivity.
Qed.

Lemma parseCacheControl_fold (elems : list string) (out : cacheControl) :
  foldl parseCacheControl_step out elems
  = mkCacheControl (Keys out ∪ list_to_set (directive_key <$> elems))
                   (default (MaxAge out) (last (omap max_age_of elems))).
Proof.
  revert out. induction elems as [|v elems IH]; intros out.
  - simpl. destruct out as [ks age]; simpl. f_equal. set_solver.
  - cbn [foldl]. rewrite IH, parseCacheControl_step_spec. cbn [Keys MaxAge].
    f_equal.
    + rewrite fmap_cons, list_to_set_cons. set_solver.
    + cbn [omap list_omap]. destruct (max_age_of v) as [d|]; [|reflexivity].
      rewrite last_cons. destruct (last (omap max_age_of elems)); reflexivity.
Qed.

Lemma parseCacheControl_refines (s : string) :
  parseCacheControl s = parseCacheControl_spec s.
Proof.
  unfold parseCacheControl, parseCacheControl_spec.
  rewrite parseCacheControl_fold. cbn [Keys MaxAge]. f_equal. set_solver.
Qed.

Lemma max_age_of_Some (v : string) (d : time.Duration) :
  max_age_of v = Some d <->
  exists val sec, directive v = ("max-age", val, true)
                  /\ strconv.Atoi val = Some sec
                  /\ d = time.wrap64 (sec * 1000000000).
Proof.
  unfold max_age_of. destruct (directive v) as [[key val] ok]. split.
  - destruct ok; simpl; [|discriminate].
    destruct (String.eqb_spec key "max-age") as [->|]; [|discriminate].
    destruct (strconv.Atoi val) as [sec|] eqn:Hsec; [|discriminate].
    intros [= <-]. exists val, sec. auto.
  - intros (val' & sec & [= -> -> ->] & Hsec & ->). simpl.
    rewrite Hsec. reflexivity.
Qed.

Lemma digits_lower_bound (s : string) (acc n : Z) :
  0 <= acc -> strconv.digits acc s = Some n -> 0 <= n.
Proof.
  revert acc. induction s as [|c s IH]; intros acc Hacc; cbn [strconv.digits].
  - intros [= <-]. exact Hacc.
  - destruct (strconv.isDigit c) eqn:Hc; [|discriminate].
    apply IH. unfold strconv.isDigit, byte_in in Hc. lia.
Qed.

(** [strconv.Atoi] takes a minus sign: digits of value [n] after it give
    [- n], down to the least 64-bit integer. *)
Lemma Atoi_negative (body : string) (n : Z) :
  body <> "" -> strconv.digits 0 body = Some n -> n <= 2 ^ 63 ->
  strconv.Atoi (String "-"%char body) = Some (- n).
Proof.
  intros Hne Hd Hn. pose proof (digits_lower_bound body 0 n (Z.le_refl 0) Hd).
  unfold strconv.Atoi. destruct body as [|c body]; [contradiction|].
  rewrite Hd. unfold strconv.minInt, strconv.maxInt.
  destruct (Z.leb_spec (- 2 ^ 63) (- n)); [|lia].
  destruct (Z.leb_spec (- n) (2 ^ 63 - 1)); [reflexivity|lia].
Qed.

Lemma hostMatchesTarget_In (host : string) (targets : list string) :
  hostMatchesTarget host targets = true <-> List.In host targets.
Proof.
  unfold hostMatchesTarget. rewrite existsb_exists. split.
  - intros (t & Hin & Heq). apply String.eqb_eq in Heq. congruence.
  - intros Hin. exists host. split; [assumption|apply String.eqb_refl].
Qed.

(** ** The classifiers *)

(** C1: [canCacheResponse] answers true exactly when the status is 200, the
    parsed Cache-Control has no [no-store], and it has [immutable], or it has
    [must-revalidate] together with a max-age above 60 days, that is 1440
    hours; otherwise it answers false. *)
Theorem canCacheResponse_iff (rsp : Response) :
  let cc := parseCacheControl (http.Header_Get (RspHeader rsp) "Cache-Control") in
  (canCacheResponse rsp = true <->
     StatusCode rsp = 200
     /\ ("no-store" ∉ Keys cc)
     /\ ("immutable" ∈ Keys cc
         \/ ("must-revalidate" ∈ Keys cc /\ 1440 * time.Hour < MaxAge cc)))
  /\ (canCacheResponse rsp = false <->
        ~ (StatusCode rsp = 200
           /\ ("no-store" ∉ Keys cc)
           /\ ("immutable" ∈ Keys cc
               \/ ("must-revalidate" ∈ Keys cc /\ 1440 * time.Hour < MaxAge cc)))).
Proof.
  intros cc.
  assert (Hiff : canCacheResponse rsp = true <->
     StatusCode rsp = 200
     /\ ("no-store" ∉ Keys cc)
     /\ ("immutable" ∈ Keys cc
         \/ ("must-revalidate" ∈ Keys cc /\ 1440 * time.Hour < MaxAge cc))).
  { unfold canCacheResponse. fold cc. rewrite <- goodLongTime_days.
    unfold http.StatusOK.
    destruct (Z.eqb_spec (StatusCode rsp) 200) as [Hst|Hst]; cbn [negb].
    2: { split; [discriminate|]. intros [? _]. contradiction. }
    destruct (Has (Keys cc) "no-store") eqn:Hns.
    { apply Has_true in Hns. split; [discriminate|]. intros (_ & ? & _).
      contradiction. }
    apply Has_false in Hns.
    destruct (Has (Keys cc) "immutable") eqn:Him.
    { apply Has_true in Him. split; auto. }
    apply Has_false in Him.
    rewrite andb_true_iff, Has_true, Z.ltb_lt. split.
    - intros [? ?]. auto.
    - intros (_ & _ & [?|?]); [contradiction|assumption]. }
  split; [exact Hiff|].
  rewrite <- Hiff. destruct (canCacheResponse rsp); split; congruence.
Qed.

(** C4: [canMemoryCache] answers [(0, false)] when the status is not 200 or
    the parsed Cache-Control has [no-store] or [no-cache]; it answers
    [(max-age, true)] exactly when, past these checks, the parsed max-age is
    above zero and below one hour; in all other cases it answers
    [(0, false)]. *)
Theorem canMemoryCache_cases (rsp : Response) :
  let cc := parseCacheControl (http.Header_Get (RspHeader rsp) "Cache-Control") in
  let blocked := StatusCode rsp <> 200
                 \/ "no-store" ∈ Keys cc \/ "no-cache" ∈ Keys cc in
  let short := 0 < MaxAge cc < time.Hour in
  (blocked -> canMemoryCache rsp = (0, false))
  /\ (~ blocked /\ short -> canMemoryCache rsp = (MaxAge cc, true))
  /\ (~ blocked /\ ~ short -> canMemoryCache rsp = (0, false))
  /\ ((canMemoryCache rsp).2 = true <-> ~ blocked /\ short).
Proof.
  intros cc blocked short. subst blocked short.
  unfold canMemoryCache. fold cc. unfold http.StatusOK.
  destruct (Z.eqb_spec (StatusCode rsp) 200) as [Hst|Hst]; cbn [negb].
  2: { repeat split; try reflexivity; try discriminate; intros; tauto. }
  destruct (Has (Keys cc) "no-store") eqn:Hns; cbn [orb].
  { apply Has_true in Hns.
    repeat split; try reflexivity; try discriminate; intros; tauto. }
  apply Has_false in Hns.
  destruct (Has (Keys cc) "no-cache") eqn:Hnc.
  { apply Has_true in Hnc.
    repeat split; try reflexivity; try discriminate; intros; tauto. }
  apply Has_false in Hnc.
  destruct (Z.ltb_spec 0 (MaxAge cc)) as [H0|H0];
    destruct (Z.ltb_spec (MaxAge cc) time.Hour) as [H1|H1]; cbn [andb snd];
    repeat split; try reflexivity; try discriminate; intros;
    try tauto; try lia.
Qed.

(** ** The parser *)

(** C3, amended: [parseCacheControl] splits the header on commas, trims
    white space from each element, and records the key of each element, the
    text before its first equals sign, in the key set.  The value of a
    max-age directive goes through [strconv.Atoi], which takes a signed
    decimal integer, negative ones included, and is kept as nanoseconds
    modulo 2^64.  The numeric max-age is that of the last max-age directive
    whose value parses, and zero when none does; a max-age directive whose
    value does not parse changes nothing but its key is recorded. *)
Theorem parseCacheControl_directives (s : string) :
  let elems := strings.Split s ","%char in
  let cc := parseCacheControl s in
  Keys cc = list_to_set (directive_key <$> elems)
  /\ (forall v, v ∈ elems -> directive_key v ∈ Keys cc)
  /\ MaxAge cc = default 0 (last (omap max_age_of elems))
  /\ (forall v d, max_age_of v = Some d <->
        exists val sec, directive v = ("max-age", val, true)
                        /\ strconv.Atoi val = Some sec
                        /\ d = time.wrap64 (sec * 1000000000))
  /\ (forall body n,
        body <> "" -> strconv.digits 0 body = Some n -> n <= 2 ^ 63 ->
        strconv.Atoi (String "-"%char body) = Some (- n))
  /\ ((forall v, v ∈ elems -> max_age_of v = None) -> MaxAge cc = 0)
  /\ (forall elems' v, max_age_of v = None ->
        MaxAge (foldl parseCacheControl_step (mkCacheControl ∅ 0) (elems' ++ [v]))
        = MaxAge (foldl parseCacheControl_step (mkCacheControl ∅ 0) elems')
        /\ directive_key v
           ∈ Keys (foldl parseCacheControl_step (mkCacheControl ∅ 0) (elems' ++ [v]))).
Proof.
  intros elems cc. subst cc. rewrite parseCacheControl_refines.
  unfold parseCacheControl_spec. fold elems. cbn [Keys MaxAge].
  split; [reflexivity|]. split.
  { intros v Hv. apply elem_of_list_to_set, list_elem_of_fmap. eauto. }
  split; [reflexivity|]. split; [apply max_age_of_Some|].
  split; [apply Atoi_negative|]. split.
  { intros Hnone.
    assert (Hnil : omap max_age_of elems = []).
    { clear -Hnone. induction elems as [|v l IH]; [reflexivity|].
      cbn [omap list_omap]. rewrite (Hnone v) by (left).
      apply IH. intros v' Hv'. apply Hnone. right. assumption. }
    rewrite Hnil. reflexivity. }
  intros elems' v Hv. rewrite foldl_app. cbn [foldl].
  rewrite parseCacheControl_step_spec, Hv. cbn [Keys MaxAge default].
  split; [reflexivity|]. set_solver.
Qed.

(** C3 as it is worded fails on two inputs: a negative max-age is parsed, not
    refused, and gives a negative duration; and after a max-age that parsed, a
    later one that does not parse leaves the number at the earlier value, not
    at zero. *)
Lemma parseCacheControl_max_age_counterexample :
  MaxAge (parseCacheControl "max-age=-5") = -5 * time.Second
  /\ MaxAge (parseCacheControl "max-age=-5") < 0
  /\ max_age_of " max-age=x" = None
  /\ MaxAge (parseCacheControl "max-age=7, max-age=x") = 7 * time.Second
  /\ MaxAge (parseCacheControl "max-age=7, max-age=x") <> 0.
Proof. vm_compute. repeat split; congruence. Qed.

Section RevproxyFacts.

Context `{lib : Library}.

(** C10: [rewriteRequest] drops the error of [url.ParseRequestURI]; there
    are inputs, the empty RequestURI among them, on which the parse fails,
    the URL pointer is nil and [rewriteRequest] dereferences it; it runs
    without this nil dereference exactly when the inbound RequestURI
    parses. *)
Theorem rewriteRequest_nil_dereference :
  (forall pr, rewriteRequest pr = Panicked <->
              ParseRequestURI (RequestURI (In pr)) = None)
  /\ (exists pr, ParseRequestURI (RequestURI (In pr)) = None
                 /\ rewriteRequest pr = Panicked)
  /\ (forall pr, (exists pr', rewriteRequest pr = Done pr') <->
                 (exists u, ParseRequestURI (RequestURI (In pr)) = Some u)).
Proof.
  unfold rewriteRequest.
  split; [|split].
  - intros pr. destruct (ParseRequestURI _); split;
      congruence.
  - exists (mkProxyRequest (mkRequest "GET" (mkURL "" "" "" "" "") "h" "" ∅)
                           (mkRequest "GET" (mkURL "" "" "" "" "") "h" "" ∅)).
    split; reflexivity.
  - intros pr. destruct (ParseRequestURI _) as [u|]; split.
    + eauto.
    + eauto.
    + intros [pr' ?]. discriminate.
    + intros [u ?]. discriminate.
Qed.

End RevproxyFacts.

(** ** Runs *)

Lemma Run_bind_Done {A B : Type} (p : Prog A) (f : A -> Prog B)
    (tr1 tr2 : list Obs) (a : A) (out : outcome B) :
  Run p tr1 (Done a) -> Run (f a) tr2 out -> Run (bind p f) (tr1 ++ tr2) out.
Proof.
  revert tr1. induction p as [a'| |X e k IH]; intros tr1; simpl.
  - intros [-> [= ->]] Hf. exact Hf.
  - intros [_ [=]].
  - intros (x & tr' & -> & Hk) Hf. exists x, (tr' ++ tr2). split; [reflexivity|].
    apply IH; assumption.
Qed.

Lemma Run_bind_inv {A B : Type} (p : Prog A) (f : A -> Prog B)
    (tr : list Obs) (out : outcome B) :
  Run (bind p f) tr out ->
  (exists a tr1 tr2, Run p tr1 (Done a) /\ Run (f a) tr2 out /\ tr = tr1 ++ tr2)
  \/ (Run p tr Panicked /\ out = Panicked).
Proof.
  revert tr. induction p as [a| |X e k IH]; intros tr; simpl.
  - intros Hf. left. exists a, [], tr. auto.
  - intros [-> ->]. right. auto.
  - intros (x & tr' & -> & Hk). destruct (IH x tr' Hk) as
      [(a & tr1 & tr2 & H1 & H2 & ->)|[H1 ->]].
    + left. exists a, (obs e x :: tr1), tr2. split; [|auto].
      exists x, tr1. auto.
    + right. split; [|reflexivity]. exists x, tr'. auto.
Qed.

(** The answers fix the run: two runs of a program whose answers come from
    the same environment are the same run. *)
Lemma Run_unique {A : Type} (ans : forall X : Type, Event X -> X) (p : Prog A)
    (tr1 tr2 : list Obs) (o1 o2 : outcome A) :
  Run p tr1 o1 -> Run p tr2 o2 ->
  consistent ans tr1 -> consistent ans tr2 ->
  tr1 = tr2 /\ o1 = o2.
Proof.
  revert tr1 tr2. induction p as [a| |X e k IH]; intros tr1 tr2; simpl.
  - intros [-> ->] [-> ->] _ _. auto.
  - intros [-> ->] [-> ->] _ _. auto.
  - intros (x1 & tr1' & -> & H1) (x2 & tr2' & -> & H2) [Hx1 Hc1] [Hx2 Hc2].
    subst x1 x2. destruct (IH _ _ _ H1 H2 Hc1 Hc2) as [-> ->]. auto.
Qed.

(** Every execution against an environment is a run. *)
Lemma exec_Run {W A : Type} (h : Handler W) (p : Prog A) (w : W) :
  Run p (exec h p w).2 (exec h p w).1.1.
Proof.
  revert w. induction p as [a| |X e k IH]; intros w; simpl; auto.
  destruct (h X e w) as [x w1] eqn:Hh.
  specialize (IH x w1). destruct (exec h (k x) w1) as [[out w2] tr].
  exists x, tr. auto.
Qed.



(** ** Headers *)



Lemma Header_Add_fold (name : string) (vals : list string) (h : http.Header)
    (k : string) :
  http.CanonicalMIMEHeaderKey name = name ->
  default [] (foldl (fun wh val => http.Header_Add wh name val) h vals !! k)
  = if decide (name = k) then default [] (h !! name) ++ vals
    else default [] (h !! k).
Proof.
  intros Hname. revert h. induction vals as [|v vals IH]; intros h; cbn [foldl].
  - case_decide; [subst; rewrite app_nil_r|]; reflexivity.
  - rewrite IH. unfold http.Header_Add, http.Header_Values. rewrite Hname.
    case_decide.
    + rewrite lookup_insert_eq. cbn. rewrite <- app_assoc. reflexivity.
    + rewrite lookup_insert_ne by assumption. reflexivity.
Qed.

(** Copying a canonical header map into an empty one keeps the values of
    every name. *)
Lemma addAll_empty (hdr : http.Header) :
  canonical_keys hdr ->
  forall k, default [] (writer.addAll ∅ hdr !! k) = default [] (hdr !! k).
Proof.
  unfold writer.addAll.
  apply (map_fold_weak_ind
           (fun (r m : http.Header) =>
              canonical_keys m ->
              forall k, default [] (r !! k) = default [] (m !! k))).
  - intros _ k. reflexivity.
  - intros i x m r Hi IH Hcanon k.
    assert (Hni : http.CanonicalMIMEHeaderKey i = i).
    { apply (Hcanon i x). apply lookup_insert_eq. }
    assert (Hm : canonical_keys m).
    { intros j vals Hj. apply (Hcanon j vals).
      rewrite lookup_insert_ne; [assumption|]. congruence. }
    rewrite Header_Add_fold by assumption. rewrite lookup_insert.
    case_decide.
    + rewrite (IH Hm i), Hi. reflexivity.
    + apply (IH Hm).
Qed.

Lemma Header_Values_addAll_empty (hdr : http.Header) (name : string) :
  canonical_keys hdr ->
  http.Header_Values (writer.addAll ∅ hdr) name = http.Header_Values hdr name.
Proof. intros Hh. apply addAll_empty, Hh. Qed.



Lemma hexString_length (s : string) :
  String.length (hexString s) = (2 * String.length s)%nat.
Proof. induction s as [|c s IH]; cbn [hexString String.length]; lia. Qed.

(** ** The handler *)

Arguments hashRequestURL : simpl never.
Arguments canCacheRequest : simpl never.
Arguments canCacheResponse : simpl never.
Arguments canMemoryCache : simpl never.
Arguments setXCacheInfo : simpl never.
Arguments writeCachedResponse : simpl never.
Arguments rewriteRequest : simpl never.
Arguments writer.Error : simpl never.
Arguments writer.WriteHeader : simpl never.
Arguments writer.setHeader : simpl never.
Arguments writer.addAll : simpl never.
Arguments len : simpl never.
Arguments hostMatchesTarget : simpl never.

(** Follow a run along the program: name the answer of each effect, split
    on each test. *)
Ltac run_inv H :=
  cbn in H;
  repeat match type of H with
    | exists _, _ => let x := fresh "x" in destruct H as (x & H)
    | _ = _ /\ _ => let E := fresh "E" in destruct H as (E & H); subst
    | Run (match ?b with _ => _ end) _ _ =>
        let E := fresh "E" in destruct b eqn:E; cbn in H
    | Run (bind (match ?b with _ => _ end) _) _ _ =>
        let E := fresh "E" in destruct b eqn:E; cbn in H
    | Run (let '(_, _) := ?b in _) _ _ =>
        let E := fresh "E" in destruct b eqn:E; cbn in H
    | Run ?p _ _ =>
        match p with
        | context [match ?b with _ => _ end] =>
            lazymatch b with
            | context [match _ with _ => _ end] => fail
            | _ => let E := fresh "E" in destruct b eqn:E; cbn in H
            end
        end
    end;
  repeat match goal with
    | x : unit |- _ => destruct x
    end.

(** Build the run that a given trace describes. *)
Ltac run_ex :=
  repeat (cbn;
          match goal with
          | |- exists _, _ => eexists
          | |- _ /\ _ => split
          | |- _ = _ => reflexivity
          end).

(** The same, with the rewriting [tac] done where the program tests a
    fact that is known. *)
Ltac run_ex_with tac :=
  repeat (cbn; try tac; cbn;
          match goal with
          | |- exists _, _ => eexists
          | |- _ /\ _ => split
          | |- _ = _ => reflexivity
          end).

(** The answers of an explicit trace, one by one; an answer of type [unit]
    is what it has to be. *)
Ltac consistent_tr :=
  cbn;
  repeat match goal with
    | |- _ /\ _ => split
    | |- True => exact I
    | |- ?a = tt => destruct a; reflexivity
    | |- _ = _ => assumption
    end.

Section HandlerFacts.

Context `{lib : Library}.

(** The run of a request for a host that is not a target, and there is no
    other. *)
Lemma rejected_run (s : Server) (w : ResponseWriter) (r : Request) :
  hostMatchesTarget (Host r) (Targets s) = false ->
  let rejected := writer.Error w "Bad Gateway" 502 in
  Run (ServeHTTP s w r) (reject_trace s r) (Done rejected)
  /\ (forall tr out, Run (ServeHTTP s w r) tr out ->
        tr = reject_trace s r /\ out = Done rejected).
Proof.
  intros Hhost rejected. subst rejected.
  unfold ServeHTTP, reject_trace, logged.
  destruct s as [targets loc kp lf lr]. cbn in Hhost. cbn. rewrite Hhost.
  split.
  - destruct lf; run_ex.
  - intros tr out Hrun. destruct lf; run_inv Hrun; split; reflexivity.
Qed.

Lemma rejected_status (w : ResponseWriter) :
  wStatus w = None -> wStatus (writer.Error w "Bad Gateway" 502) = Some 502.
Proof.
  intros Hw. unfold writer.Error, writer.Write, writer.WriteHeader,
    writer.setHeader. cbn. rewrite Hw. reflexivity.
Qed.

(** C8: a request whose Host is not among the targets is answered 502 Bad
    Gateway and nothing else happens: no tier is read or written, nothing
    is sent to the origin, and the only counter that moves is
    req_received. *)
Theorem non_target_rejected (s : Server) (w : ResponseWriter) (r : Request) :
  hostMatchesTarget (Host r) (Targets s) = false ->
  let rejected := writer.Error w "Bad Gateway" 502 in
  Run (ServeHTTP s w r) (reject_trace s r) (Done rejected)
  /\ (forall tr out, Run (ServeHTTP s w r) tr out ->
        tr = reject_trace s r /\ out = Done rejected)
  /\ (wStatus w = None -> wStatus rejected = Some 502)
  /\ none_of (@is_cache_op) (reject_trace s r) = true
  /\ round_trips (reject_trace s r) = []
  /\ adds_of (reject_trace s r) = [(reqReceived, 1)].
Proof.
  intros Hhost rejected.
  destruct (rejected_run s w r Hhost) as [Hrun Honly].
  split; [exact Hrun|]. split; [exact Honly|].
  split; [apply rejected_status|].
  unfold reject_trace, logged.
  destruct (Logf s); repeat split; reflexivity.
Qed.

(** C9: a host matches when it is equal, byte for byte, to one of the
    targets: no case folding, no port stripping.  A Host with a port
    suffix does not match the target without it, and the request is
    answered 502. *)
Theorem hostMatchesTarget_exact :
  (forall host targets,
      hostMatchesTarget host targets = true <-> List.In host targets)
  /\ hostMatchesTarget "host.example.com:8080" ["host.example.com"] = false
  /\ hostMatchesTarget "HOST.example.com" ["host.example.com"] = false
  /\ (forall loc kp lf lr w m u uri h,
        let s := mkServer ["host.example.com"] loc kp lf lr in
        let r := mkRequest m u "host.example.com:8080" uri h in
        Run (ServeHTTP s w r) (reject_trace s r)
            (Done (writer.Error w "Bad Gateway" 502)))
  /\ wStatus (writer.Error newWriter "Bad Gateway" 502) = Some 502.
Proof.
  split; [apply hostMatchesTarget_In|].
  split; [reflexivity|]. split; [reflexivity|].
  split; [|apply rejected_status; reflexivity].
  intros loc kp lf lr w m u uri h s r.
  apply (rejected_run s w r). reflexivity.
Qed.








(** In every run of the handler a remote store is handed over only after a
    successful local store of the same entry. *)
Lemma push_follows_save (s : Server) (w : ResponseWriter) (r : Request)
    (tr : list Obs) (out : outcome ResponseWriter) :
  Run (ServeHTTP s w r) tr out -> push_after_save [] tr.
Proof.
  intros H.
  unfold ServeHTTP, ReverseProxy_ServeHTTP, modifyResponse in H.
  destruct s as [targets loc kp lf lr].
  destruct lf, lr; run_inv H; cbn; intuition auto.
Qed.

(** C6: when a durably cacheable response has been sent on, a failing
    local store counts rsp_save_error and no remote store is handed to the
    task group; a local store that succeeds counts rsp_save, adds the body
    length to rsp_save_bytes and then hands the remote store to the task
    group.  So in every run a remote store comes after a successful local
    store of the same hash, and the client has its response either way. *)
Theorem durable_store_then_push (s : Server) (w : ResponseWriter)
    (r : Request) (pr : ProxyRequest) (rsp : Response) (body copied : bytes) :
  hostMatchesTarget (Host r) (Targets s) = true ->
  canCacheRequest r = true ->
  rewriteRequest (mkProxyRequest r r) = Done pr ->
  canCacheResponse rsp = true ->
  let hash := hashRequestURL (RURL r) in
  let hdr := setXCacheInfo (RspHeader rsp) "fetch, cached" hash in
  let sent := proxied w (setRspHeader rsp hdr) copied in
  let tr err := durable_trace s r (Out pr) rsp body copied err in
  (forall err, Run (ServeHTTP s w r) (tr err) (Done sent))
  /\ (forall (ans : forall X : Type, Event X -> X) err tr' out,
        ans _ (ECacheLoadMemory hash) = None ->
        ans _ (ECacheLoadLocal hash) = None ->
        ans _ (ECacheLoadS3 hash) = None ->
        ans _ (ERoundTrip (Out pr)) = Some (rsp, body) ->
        ans _ (ECopyBody body) = copied ->
        ans _ (ECacheStoreLocal hash hdr copied) = err ->
        consistent ans tr' ->
        Run (ServeHTTP s w r) tr' out ->
        tr' = tr err /\ out = Done sent)
  /\ (forall e,
        adds_of (tr (Some e))
        = [(reqReceived, 1); (reqLocalMiss, 1); (reqFaultMiss, 1);
           (reqForward, 1); (rspSaveError, 1)]
        /\ pushes_of (tr (Some e)) = [])
  /\ (adds_of (tr None)
      = [(reqReceived, 1); (reqLocalMiss, 1); (reqFaultMiss, 1);
         (reqForward, 1); (rspSave, 1); (rspSaveBytes, len copied)]
      /\ pushes_of (tr None) = [(hash, hdr, copied)])
  /\ (forall tr' out, Run (ServeHTTP s w r) tr' out -> push_after_save [] tr')
  /\ wBody sent = (wBody w ++ copied)%string
  /\ (wStatus w = None -> wStatus sent = Some 200).
Proof.
  intros Hhost Hcc Hrw Hrsp hash hdr sent tr.
  assert (Hrun : forall err, Run (ServeHTTP s w r) (tr err) (Done sent)).
  { intros err. subst tr sent hdr hash.
    unfold ServeHTTP, durable_trace, miss_trace,
      begin_trace, ReverseProxy_ServeHTTP, modifyResponse, proxied.
    rewrite Hhost, Hcc, Hrw.
    destruct (canMemoryCache rsp) as [maxAge isVolatile] eqn:Hmem.
    destruct s as [targets loc kp lf lr].
    destruct lf, lr, err; run_ex_with ltac:(rewrite ?Hmem, ?Hrsp). }
  split; [exact Hrun|]. split; [|split; [|split; [|split; [|split]]]].
  - intros ans err tr' out Hmem Hloc Hs3 Hrt Hcp Hstore Hans Htr.
    apply (Run_unique ans _ _ _ _ _ Htr (Hrun err) Hans).
    subst tr hdr hash.
    unfold durable_trace, miss_trace, begin_trace, vlogged, logged.
    destruct (Logf s), (LogRequests s), err; consistent_tr.
  - intros e. subst tr.
    unfold durable_trace, miss_trace, begin_trace.
    destruct s as [targets loc kp lf lr]. destruct lf, lr; split; reflexivity.
  - subst tr.
    unfold durable_trace, miss_trace, begin_trace.
    destruct s as [targets loc kp lf lr]. destruct lf, lr; split; reflexivity.
  - intros tr' out. apply push_follows_save.
  - subst sent. unfold proxied, writer.WriteHeader, writer.setHeader.
    cbn. destruct (wStatus w); reflexivity.
  - intros Hw. subst sent. unfold proxied, writer.WriteHeader, writer.setHeader.
    cbn. rewrite Hw. cbn. f_equal.
    unfold canCacheResponse in Hrsp. unfold http.StatusOK in Hrsp.
    destruct (Z.eqb_spec (StatusCode rsp) 200); [assumption|discriminate].
Qed.

(** The run of a request that may not be cached, for a target, when the
    origin answers. *)
Lemma bypass_run (s : Server) (w : ResponseWriter) (r : Request)
    (pr : ProxyRequest) (rsp : Response) (body copied : bytes) :
  hostMatchesTarget (Host r) (Targets s) = true ->
  canCacheRequest r = false ->
  rewriteRequest (mkProxyRequest r r) = Done pr ->
  Run (ServeHTTP s w r) (bypass_trace s r (Out pr) rsp body copied)
      (Done (proxied w rsp copied)).
Proof.
  intros Hhost Hcc Hrw.
  unfold ServeHTTP, bypass_trace, begin_trace,
    ReverseProxy_ServeHTTP, proxied.
  rewrite Hhost, Hcc, Hrw.
  destruct s as [targets loc kp lf lr]. destruct lf, lr; run_ex.
Qed.

(** C2, what the code does: a GET for a target whose own Cache-Control has
    no-store is sent on without a response hook, so the client gets the
    header of the origin as it is; when the origin sent no X-Cache, the
    response has none. *)
Theorem no_store_request_passes_through (s : Server) (w : ResponseWriter)
    (r : Request) (pr : ProxyRequest) (rsp : Response) (body copied : bytes) :
  hostMatchesTarget (Host r) (Targets s) = true ->
  Method r = "GET" ->
  "no-store" ∈ Keys (parseCacheControl
                       (http.Header_Get (ReqHeader r) "Cache-Control")) ->
  rewriteRequest (mkProxyRequest r r) = Done pr ->
  Run (ServeHTTP s w r) (bypass_trace s r (Out pr) rsp body copied)
      (Done (proxied w rsp copied))
  /\ (canonical_keys (RspHeader rsp) ->
      http.Header_Values (wHeader (proxied newWriter rsp copied)) "X-Cache"
      = http.Header_Values (RspHeader rsp) "X-Cache").
Proof.
  intros Hhost Hget Hns Hrw.
  assert (Hcc : canCacheRequest r = false).
  { unfold canCacheRequest. apply Has_true in Hns. rewrite Hns.
    apply andb_false_r. }
  split.
  - apply bypass_run; assumption.
  - intros Hcanon. unfold proxied, newWriter, writer.WriteHeader,
      writer.setHeader. cbn.
    apply Header_Values_addAll_empty, Hcanon.
Qed.

End HandlerFacts.

(** ** The statements above at concrete requests *)

Lemma canonical_keys_singleton (k : string) (vals : list string) :
  http.CanonicalMIMEHeaderKey k = k -> canonical_keys {[ k := vals ]}.
Proof.
  intros Hk k' vals' Hlook. apply lookup_singleton_Some in Hlook as [<- _].
  exact Hk.
Defined.


(** C8 at a POST for [other.example], which is not a target. *)
Lemma non_target_rejected_witness :
  hostMatchesTarget (Host demo_post_elsewhere) (Targets demo_server) = false
  /\ Run (demo_ServeHTTP demo_server newWriter demo_post_elsewhere)
         (reject_trace demo_server demo_post_elsewhere)
         (Done (writer.Error newWriter "Bad Gateway" 502))
  /\ adds_of (reject_trace demo_server demo_post_elsewhere) = [(reqReceived, 1)].
Proof.
  assert (Hhost : hostMatchesTarget (Host demo_post_elsewhere)
                                    (Targets demo_server) = false)
    by (vm_compute; reflexivity).
  split; [exact Hhost|].
  pose proof (non_target_rejected 
                demo_server newWriter demo_post_elsewhere Hhost) as Hthm.
  cbv zeta in Hthm. destruct Hthm as (Hrun & _ & _ & _ & _ & Hadds).
  split; [exact Hrun|exact Hadds].
Defined.




(** C6 at a GET for a target that the origin answers with
    [Cache-Control: immutable], with the disk working and with the disk
    failing. *)
Lemma durable_store_then_push_witness :
  let hash := hashRequestURL (RURL demo_get) in
  let hdr := setXCacheInfo (RspHeader demo_immutable) "fetch, cached" hash in
  let tr err := durable_trace demo_server demo_get
                  (demo_out demo_get) demo_immutable "hello" "hello" err in
  hostMatchesTarget (Host demo_get) (Targets demo_server) = true
  /\ canCacheRequest demo_get = true
  /\ rewriteRequest (mkProxyRequest demo_get demo_get)
     = Done (mkProxyRequest demo_get (demo_out demo_get))
  /\ canCacheResponse demo_immutable = true
  /\ pushes_of (tr (Some (mkError "disk"))) = []
  /\ pushes_of (tr None) = [(hash, hdr, "hello")]
  /\ (exec handle (demo_ServeHTTP demo_server newWriter demo_get)
           (demo_world false)).2 = tr None
  /\ (exec handle (demo_ServeHTTP demo_server newWriter demo_get)
           (demo_world true)).2 = tr (Some (mkError "disk")).
Proof.
  intros hash hdr tr.
  assert (H1 : hostMatchesTarget (Host demo_get) (Targets demo_server) = true)
    by (vm_compute; reflexivity).
  assert (H2 : canCacheRequest demo_get = true) by (vm_compute; reflexivity).
  assert (H3 : rewriteRequest (mkProxyRequest demo_get demo_get)
               = Done (mkProxyRequest demo_get (demo_out demo_get)))
    by (vm_compute; reflexivity).
  assert (H4 : canCacheResponse demo_immutable = true)
    by (vm_compute; reflexivity).
  pose proof (durable_store_then_push 
                demo_server newWriter demo_get _ demo_immutable "hello" "hello"
                H1 H2 H3 H4) as Hthm.
  cbv zeta in Hthm. destruct Hthm as (_ & _ & Hfail & Hok & _).
  split; [exact H1|]. split; [exact H2|]. split; [exact H3|].
  split; [exact H4|]. split; [exact (proj2 (Hfail (mkError "disk")))|].
  split; [exact (proj2 Hok)|]. split; vm_compute; reflexivity.
Defined.

(** C2 at its failing input: a GET with [Cache-Control: no-store] for a
    target; the origin sends no X-Cache and the client gets none. *)
Lemma no_store_request_witness :
  hostMatchesTarget (Host demo_get_no_store) (Targets demo_server) = true
  /\ Method demo_get_no_store = "GET"
  /\ "no-store" ∈ Keys (parseCacheControl
                          (http.Header_Get (ReqHeader demo_get_no_store)
                                           "Cache-Control"))
  /\ rewriteRequest
       (mkProxyRequest demo_get_no_store demo_get_no_store)
     = Done (mkProxyRequest demo_get_no_store (demo_out demo_get_no_store))
  /\ Run (demo_ServeHTTP demo_server newWriter demo_get_no_store)
         (bypass_trace demo_server
            demo_get_no_store (demo_out demo_get_no_store)
            demo_immutable "hello" "hello")
         (Done (proxied newWriter demo_immutable "hello"))
  /\ http.Header_Values (wHeader (proxied newWriter demo_immutable "hello"))
                        "X-Cache" = [].
Proof.
  assert (H1 : hostMatchesTarget (Host demo_get_no_store) (Targets demo_server)
               = true) by (vm_compute; reflexivity).
  assert (H2 : Method demo_get_no_store = "GET") by reflexivity.
  assert (H3 : "no-store" ∈ Keys (parseCacheControl
                          (http.Header_Get (ReqHeader demo_get_no_store)
                                           "Cache-Control")))
    by (apply Has_true; vm_compute; reflexivity).
  assert (H4 : rewriteRequest
                 (mkProxyRequest demo_get_no_store demo_get_no_store)
               = Done (mkProxyRequest demo_get_no_store
                                      (demo_out demo_get_no_store)))
    by (vm_compute; reflexivity).
  pose proof (no_store_request_passes_through
                
                demo_server newWriter demo_get_no_store _ demo_immutable
                "hello" "hello" H1 H2 H3 H4) as [Hrun Hx].
  split; [exact H1|]. split; [exact H2|]. split; [exact H3|].
  split; [exact H4|]. split; [exact Hrun|].
  rewrite Hx; [vm_compute; reflexivity|].
  apply canonical_keys_singleton. vm_compute. reflexivity.
Defined.

(** * Further properties of the package *)

Section HandlerInvariants.

Context `{lib : Library}.

(** The tiers are asked in the order memory, local, remote, each one after
    a miss of the one before and all for the hash of the request URL; a hit
    ends the search.  The origin is contacted only when no tier was asked,
    or all three missed. *)
Theorem lookups_in_tier_order (s : Server) (w : ResponseWriter) (r : Request)
    (tr : list Obs) (out : outcome ResponseWriter) :
  Run (ServeHTTP s w r) tr out ->
  let hash := hashRequestURL (RURL r) in
  let misses := [(memoryTier, hash, false); (localTier, hash, false);
                 (remoteTier, hash, false)] in
  List.In (lookups_of tr)
    [ [];
      [(memoryTier, hash, true)];
      [(memoryTier, hash, false); (localTier, hash, true)];
      [(memoryTier, hash, false); (localTier, hash, false);
       (remoteTier, hash, true)];
      misses ]
  /\ (lookups_of tr <> [] ->
      hostMatchesTarget (Host r) (Targets s) = true /\ canCacheRequest r = true)
  /\ (round_trips tr <> [] -> lookups_of tr = [] \/ lookups_of tr = misses)
  /\ (round_trips tr <> [] -> lookups_of tr = [] -> canCacheRequest r = false).
Proof.
  intros H hash misses. subst hash misses.
  unfold ServeHTTP, ReverseProxy_ServeHTTP, modifyResponse in H.
  destruct s as [targets loc kp lf lr]. cbn [Targets Logf LogRequests] in *.
  destruct (hostMatchesTarget (Host r) targets) eqn:Hhost;
    destruct (canCacheRequest r) eqn:Hcc;
    destruct lf, lr; run_inv H; cbn;
    (split; [tauto|]); (split; [intros; auto; congruence|]);
    (split; [intros; auto; congruence|]); intros; auto; congruence.
Qed.


(** Every cache operation of a run, lookup or store, in any tier, has the
    hash of the request URL as its key. *)
Theorem cache_operations_use_request_hash (s : Server) (w : ResponseWriter)
    (r : Request) (tr : list Obs) (out : outcome ResponseWriter) :
  Run (ServeHTTP s w r) tr out ->
  Forall (fun key => key = hashRequestURL (RURL r)) (cache_keys tr).
Proof.
  intros H.
  unfold ServeHTTP, ReverseProxy_ServeHTTP, modifyResponse in H.
  destruct s as [targets loc kp lf lr].
  destruct lf, lr; run_inv H; cbn; repeat constructor.
Qed.

(** What one request adds to the counters: one to req_received; one to
    exactly one of the three hit counters and req_forward when the host is a
    target, nothing otherwise; as much to req_local_miss as to req_fault_hit
    and req_fault_miss together; at most one to the four response counters,
    and only after a forward.  rsp_save counts the remote stores handed
    over and rsp_save_bytes their bytes; the three push counters are not
    touched by the handler. *)
Theorem counters_per_request (s : Server) (w : ResponseWriter) (r : Request)
    (tr : list Obs) (out : outcome ResponseWriter) :
  Run (ServeHTTP s w r) tr out ->
  count reqReceived tr = 1
  /\ count reqMemoryHit tr + count reqLocalHit tr + count reqFaultHit tr
     + count reqForward tr
     = (if hostMatchesTarget (Host r) (Targets s) then 1 else 0)
  /\ count reqLocalMiss tr = count reqFaultHit tr + count reqFaultMiss tr
  /\ 0 <= count rspSave tr + count rspSaveError tr + count rspSaveMem tr
          + count rspNotCached tr <= count reqForward tr
  /\ count rspSave tr = Z.of_nat (length (pushes_of tr))
  /\ count rspSaveBytes tr
     = foldr (fun entry acc => len entry.2 + acc) 0 (pushes_of tr)
  /\ count rspPush tr = 0 /\ count rspPushError tr = 0
  /\ count rspPushBytes tr = 0.
Proof.
  intros H.
  unfold ServeHTTP, ReverseProxy_ServeHTTP, modifyResponse in H.
  destruct s as [targets loc kp lf lr]. cbn [Targets Logf LogRequests] in *.
  destruct (hostMatchesTarget (Host r) targets) eqn:Hhost;
    destruct lf, lr; run_inv H; cbn; repeat split; try reflexivity; lia.
Qed.

(** One response goes to one place: a run stores at most once, into memory
    or into the local cache, never both; a remote store is handed over at
    most once.  Memory is filled, and a remote store handed over, only with
    a response that came from the origin in this run; a local store happens
    without the origin only when the remote tier hit. *)
Theorem stores_per_request (s : Server) (w : ResponseWriter) (r : Request)
    (tr : list Obs) (out : outcome ResponseWriter) :
  Run (ServeHTTP s w r) tr out ->
  (length (memory_stores tr) + length (local_stores tr) <= 1)%nat
  /\ (length (pushes_of tr) <= length (local_stores tr))%nat
  /\ (memory_stores tr <> [] -> round_trips tr <> [])
  /\ (pushes_of tr <> [] -> round_trips tr <> [])
  /\ (local_stores tr <> [] -> round_trips tr = [] ->
      List.In (remoteTier, hashRequestURL (RURL r), true) (lookups_of tr)).
Proof.
  intros H.
  unfold ServeHTTP, ReverseProxy_ServeHTTP, modifyResponse in H.
  destruct s as [targets loc kp lf lr].
  destruct lf, lr; run_inv H; cbn;
    (split; [lia|]); (split; [lia|]);
    repeat split; intros; try congruence; auto.
Qed.

(** Without a logging function nothing is logged.  Without LogRequests the
    only lines are the three that report a rejected host or a failed local
    store. *)
Theorem logging_follows_configuration (s : Server) (w : ResponseWriter)
    (r : Request) (tr : list Obs) (out : outcome ResponseWriter) :
  Run (ServeHTTP s w r) tr out ->
  (Logf s = false -> logs_of tr = [])
  /\ (LogRequests s = false ->
      Forall (fun line =>
                List.In line.1 ["reject proxy request for non-target %q";
                                "update %q local: %v";
                                "save %q to cache: %v"])
             (logs_of tr)).
Proof.
  intros H.
  unfold ServeHTTP, ReverseProxy_ServeHTTP, modifyResponse in H.
  destruct s as [targets loc kp lf lr]. cbn [Logf LogRequests].
  destruct lf, lr; run_inv H; cbn; split; intros; try discriminate;
    try reflexivity;
    repeat match goal with
      | |- Forall _ [] => constructor
      | |- Forall _ (_ :: _) => constructor; [cbn; tauto|]
      | |- True => exact I
      end.
Qed.


(** A hit in the memory or in the local tier is served from that tier: no
    slower tier is asked, nothing is stored, the origin is not contacted.  A
    local hit is not copied into memory and does not count as a local
    miss. *)
Theorem fast_tier_hit (s : Server) (r : Request) (data : bytes)
    (hdr : http.Header) :
  hostMatchesTarget (Host r) (Targets s) = true ->
  canCacheRequest r = true ->
  let hash := hashRequestURL (RURL r) in
  let served token w := writeCachedResponse w (setXCacheInfo hdr token hash) data in
  (forall w, Run (ServeHTTP s w r) (memory_hit_trace s r data hdr)
                 (Done (served "hit, memory" w)))
  /\ (forall w, Run (ServeHTTP s w r) (local_hit_trace s r data hdr)
                    (Done (served "hit, local" w)))
  /\ (forall (ans : forall X : Type, Event X -> X) w tr out,
        ans _ (ECacheLoadMemory hash) = Some (data, hdr) ->
        consistent ans tr ->
        Run (ServeHTTP s w r) tr out ->
        tr = memory_hit_trace s r data hdr
        /\ out = Done (served "hit, memory" w))
  /\ (forall (ans : forall X : Type, Event X -> X) w tr out,
        ans _ (ECacheLoadMemory hash) = None ->
        ans _ (ECacheLoadLocal hash) = Some (data, hdr) ->
        consistent ans tr ->
        Run (ServeHTTP s w r) tr out ->
        tr = local_hit_trace s r data hdr
        /\ out = Done (served "hit, local" w))
  /\ (adds_of (memory_hit_trace s r data hdr)
      = [(reqReceived, 1); (reqMemoryHit, 1)]
      /\ lookups_of (memory_hit_trace s r data hdr) = [(memoryTier, hash, true)]
      /\ none_of (@is_cache_write) (memory_hit_trace s r data hdr) = true
      /\ round_trips (memory_hit_trace s r data hdr) = [])
  /\ (adds_of (local_hit_trace s r data hdr)
      = [(reqReceived, 1); (reqLocalHit, 1)]
      /\ lookups_of (local_hit_trace s r data hdr)
         = [(memoryTier, hash, false); (localTier, hash, true)]
      /\ none_of (@is_cache_write) (local_hit_trace s r data hdr) = true
      /\ round_trips (local_hit_trace s r data hdr) = []).
Proof.
  intros Hhost Hcc hash served.
  assert (Hmem : forall w, Run (ServeHTTP s w r) (memory_hit_trace s r data hdr)
                               (Done (served "hit, memory" w))).
  { intros w. subst served hash.
    unfold ServeHTTP, memory_hit_trace, begin_trace. rewrite Hhost, Hcc.
    destruct s as [targets loc kp lf lr]. destruct lf, lr; run_ex. }
  assert (Hloc : forall w, Run (ServeHTTP s w r) (local_hit_trace s r data hdr)
                               (Done (served "hit, local" w))).
  { intros w. subst served hash.
    unfold ServeHTTP, local_hit_trace, begin_trace. rewrite Hhost, Hcc.
    destruct s as [targets loc kp lf lr]. destruct lf, lr; run_ex. }
  split; [exact Hmem|]. split; [exact Hloc|].
  split; [|split; [|split]].
  - intros ans w tr out Ha Hans Htr.
    apply (Run_unique ans _ _ _ _ _ Htr (Hmem w) Hans).
    subst hash. unfold memory_hit_trace, begin_trace, vlogged, logged.
    destruct (Logf s), (LogRequests s); consistent_tr.
  - intros ans w tr out Ha Hb Hans Htr.
    apply (Run_unique ans _ _ _ _ _ Htr (Hloc w) Hans).
    subst hash. unfold local_hit_trace, begin_trace, vlogged, logged.
    destruct (Logf s), (LogRequests s); consistent_tr.
  - unfold memory_hit_trace, begin_trace.
    destruct s as [targets loc kp lf lr]. destruct lf, lr; repeat split.
  - unfold local_hit_trace, begin_trace.
    destruct s as [targets loc kp lf lr]. destruct lf, lr; repeat split.
Qed.

Lemma canMemoryCache_true (rsp : Response) (maxAge : time.Duration) :
  canMemoryCache rsp = (maxAge, true) -> 0 < maxAge < time.Hour.
Proof.
  unfold canMemoryCache.
  destruct (negb _); [discriminate|].
  destruct (_ || _); [discriminate|].
  destruct (Z.ltb_spec 0 (MaxAge (parseCacheControl
              (http.Header_Get (RspHeader rsp) "Cache-Control"))));
    [|discriminate].
  destruct (Z.ltb_spec (MaxAge (parseCacheControl
              (http.Header_Get (RspHeader rsp) "Cache-Control"))) time.Hour);
    [|discriminate].
  cbn. intros [= <-]. lia.
Qed.

(** A response of the origin that can be kept in memory but not on disk is
    streamed to the client and then stored in memory, once, for its max-age,
    which is above zero and below one hour; rsp_save_memory is counted.  It
    is not stored in the local cache and no remote store is handed over. *)
Theorem volatile_response_kept_in_memory (s : Server) (w : ResponseWriter)
    (r : Request) (pr : ProxyRequest) (rsp : Response)
    (maxAge : time.Duration) (body copied : bytes) :
  hostMatchesTarget (Host r) (Targets s) = true ->
  canCacheRequest r = true ->
  rewriteRequest (mkProxyRequest r r) = Done pr ->
  canCacheResponse rsp = false ->
  canMemoryCache rsp = (maxAge, true) ->
  let hash := hashRequestURL (RURL r) in
  let hdr := setXCacheInfo (RspHeader rsp) "fetch, cached, volatile" hash in
  let sent := proxied w (setRspHeader rsp hdr) copied in
  let tr := volatile_trace s r (Out pr) rsp maxAge body copied in
  Run (ServeHTTP s w r) tr (Done sent)
  /\ (forall (ans : forall X : Type, Event X -> X) tr' out,
        ans _ (ECacheLoadMemory hash) = None ->
        ans _ (ECacheLoadLocal hash) = None ->
        ans _ (ECacheLoadS3 hash) = None ->
        ans _ (ERoundTrip (Out pr)) = Some (rsp, body) ->
        ans _ (ECopyBody body) = copied ->
        consistent ans tr' ->
        Run (ServeHTTP s w r) tr' out ->
        tr' = tr /\ out = Done sent)
  /\ memory_stores tr = [(hash, maxAge, hdr, copied)]
  /\ 0 < maxAge < time.Hour
  /\ local_stores tr = []
  /\ pushes_of tr = []
  /\ adds_of tr = [(reqReceived, 1); (reqLocalMiss, 1); (reqFaultMiss, 1);
                   (reqForward, 1); (rspSaveMem, 1)].
Proof.
  intros Hhost Hcc Hrw Hrsp Hmem hash hdr sent tr.
  assert (Hrun : Run (ServeHTTP s w r) tr (Done sent)).
  { subst tr sent hdr hash.
    unfold ServeHTTP, volatile_trace, miss_trace, begin_trace,
      ReverseProxy_ServeHTTP, modifyResponse, proxied.
    rewrite Hhost, Hcc, Hrw.
    destruct s as [targets loc kp lf lr].
    destruct lf, lr; run_ex_with ltac:(rewrite ?Hmem, ?Hrsp). }
  split; [exact Hrun|]. split; [|split; [|split; [|split; [|split]]]].
  - intros ans tr' out H1 H2 H3 H4 H5 Hans Htr.
    apply (Run_unique ans _ _ _ _ _ Htr Hrun Hans).
    subst tr hdr hash.
    unfold volatile_trace, miss_trace, begin_trace, vlogged, logged.
    destruct (Logf s), (LogRequests s); consistent_tr.
  - subst tr. unfold volatile_trace, miss_trace, begin_trace.
    destruct s as [targets loc kp lf lr]. destruct lf, lr; reflexivity.
  - exact (canMemoryCache_true rsp maxAge Hmem).
  - subst tr. unfold volatile_trace, miss_trace, begin_trace.
    destruct s as [targets loc kp lf lr]. destruct lf, lr; reflexivity.
  - subst tr. unfold volatile_trace, miss_trace, begin_trace.
    destruct s as [targets loc kp lf lr]. destruct lf, lr; reflexivity.
  - subst tr. unfold volatile_trace, miss_trace, begin_trace.
    destruct s as [targets loc kp lf lr]. destruct lf, lr; reflexivity.
Qed.

(** A response of the origin that can be cached neither way, to a request
    that may be cached, is passed on and counted in rsp_not_cached before
    its body is streamed; nothing is stored in any tier. *)
Theorem uncacheable_response_not_stored (s : Server) (w : ResponseWriter)
    (r : Request) (pr : ProxyRequest) (rsp : Response) (body copied : bytes) :
  hostMatchesTarget (Host r) (Targets s) = true ->
  canCacheRequest r = true ->
  rewriteRequest (mkProxyRequest r r) = Done pr ->
  canCacheResponse rsp = false ->
  (canMemoryCache rsp).2 = false ->
  let hash := hashRequestURL (RURL r) in
  let hdr := setXCacheInfo (RspHeader rsp) "fetch, uncached" "" in
  let sent := proxied w (setRspHeader rsp hdr) copied in
  let tr := uncached_trace s r (Out pr) rsp body copied in
  Run (ServeHTTP s w r) tr (Done sent)
  /\ (forall (ans : forall X : Type, Event X -> X) tr' out,
        ans _ (ECacheLoadMemory hash) = None ->
        ans _ (ECacheLoadLocal hash) = None ->
        ans _ (ECacheLoadS3 hash) = None ->
        ans _ (ERoundTrip (Out pr)) = Some (rsp, body) ->
        ans _ (ECopyBody body) = copied ->
        consistent ans tr' ->
        Run (ServeHTTP s w r) tr' out ->
        tr' = tr /\ out = Done sent)
  /\ none_of (@is_cache_write) tr = true
  /\ adds_of tr = [(reqReceived, 1); (reqLocalMiss, 1); (reqFaultMiss, 1);
                   (reqForward, 1); (rspNotCached, 1)].
Proof.
  intros Hhost Hcc Hrw Hrsp Hmem hash hdr sent tr.
  destruct (canMemoryCache rsp) as [maxAge isVolatile] eqn:Hmc.
  cbn in Hmem. subst isVolatile.
  assert (Hrun : Run (ServeHTTP s w r) tr (Done sent)).
  { subst tr sent hdr hash.
    unfold ServeHTTP, uncached_trace, miss_trace, begin_trace,
      ReverseProxy_ServeHTTP, modifyResponse, proxied.
    rewrite Hhost, Hcc, Hrw.
    destruct s as [targets loc kp lf lr].
    destruct lf, lr; run_ex_with ltac:(rewrite ?Hmc, ?Hrsp). }
  split; [exact Hrun|]. split; [|split].
  - intros ans tr' out H1 H2 H3 H4 H5 Hans Htr.
    apply (Run_unique ans _ _ _ _ _ Htr Hrun Hans).
    subst tr hdr hash.
    unfold uncached_trace, miss_trace, begin_trace, vlogged, logged.
    destruct (Logf s), (LogRequests s); consistent_tr.
  - subst tr. unfold uncached_trace, miss_trace, begin_trace.
    destruct s as [targets loc kp lf lr]. destruct lf, lr; reflexivity.
  - subst tr. unfold uncached_trace, miss_trace, begin_trace.
    destruct s as [targets loc kp lf lr]. destruct lf, lr; reflexivity.
Qed.


(** When the round trip to the origin fails, the client gets 502 with no
    body and the header as it was; nothing is stored and none of the
    response counters moves. *)
Theorem origin_failure_answers_502 (s : Server) (w : ResponseWriter)
    (r : Request) (pr : ProxyRequest) :
  hostMatchesTarget (Host r) (Targets s) = true ->
  rewriteRequest (mkProxyRequest r r) = Done pr ->
  let hash := hashRequestURL (RURL r) in
  let tr := forward_trace s r ++ [obs (ERoundTrip (Out pr)) None] in
  let sent := writer.WriteHeader w 502 in
  Run (ServeHTTP s w r) tr (Done sent)
  /\ (forall (ans : forall X : Type, Event X -> X) tr' out,
        ans _ (ECacheLoadMemory hash) = None ->
        ans _ (ECacheLoadLocal hash) = None ->
        ans _ (ECacheLoadS3 hash) = None ->
        ans _ (ERoundTrip (Out pr)) = None ->
        consistent ans tr' ->
        Run (ServeHTTP s w r) tr' out ->
        tr' = tr /\ out = Done sent)
  /\ none_of (@is_cache_write) tr = true
  /\ adds_of tr
     = (if canCacheRequest r
        then [(reqReceived, 1); (reqLocalMiss, 1); (reqFaultMiss, 1);
              (reqForward, 1)]
        else [(reqReceived, 1); (reqForward, 1)])
  /\ wHeader sent = wHeader w
  /\ wBody sent = wBody w
  /\ (wStatus w = None -> wStatus sent = Some 502).
Proof.
  intros Hhost Hrw hash tr sent.
  assert (Hrun : Run (ServeHTTP s w r) tr (Done sent)).
  { subst tr sent hash.
    unfold ServeHTTP, forward_trace, miss_trace, begin_trace,
      ReverseProxy_ServeHTTP.
    rewrite Hhost, Hrw.
    destruct s as [targets loc kp lf lr].
    destruct (canCacheRequest r), lf, lr; run_ex. }
  split; [exact Hrun|]. split; [|split; [|split; [|split; [|split]]]].
  - intros ans tr' out H1 H2 H3 H4 Hans Htr.
    apply (Run_unique ans _ _ _ _ _ Htr Hrun Hans).
    subst tr hash.
    unfold forward_trace, miss_trace, begin_trace, vlogged, logged.
    destruct (canCacheRequest r), (Logf s), (LogRequests s); consistent_tr.
  - subst tr. unfold forward_trace, miss_trace, begin_trace.
    destruct s as [targets loc kp lf lr].
    destruct (canCacheRequest r), lf, lr; reflexivity.
  - subst tr. unfold forward_trace, miss_trace, begin_trace.
    destruct s as [targets loc kp lf lr].
    destruct (canCacheRequest r), lf, lr; reflexivity.
  - subst sent. unfold writer.WriteHeader. destruct (wStatus w); reflexivity.
  - subst sent. unfold writer.WriteHeader. destruct (wStatus w); reflexivity.
  - intros Hw. subst sent. unfold writer.WriteHeader. rewrite Hw. reflexivity.
Qed.


(** What [rewriteRequest] leaves, when it completes. *)
Lemma rewriteRequest_Done (pr pr' : ProxyRequest) :
  rewriteRequest pr = Done pr' ->
  exists u,
    ParseRequestURI (RequestURI (In pr)) = Some u
    /\ pr' = mkProxyRequest (In pr)
               (mkRequest (Method (Out pr))
                  (mkURL (if String.eqb (Scheme u) "" then "https" else Scheme u)
                         (Opaque u) (Host (In pr)) (Path u) (RawQuery u))
                  (Host (In pr)) (RequestURI (Out pr)) (ReqHeader (Out pr))).
Proof.
  unfold rewriteRequest.
  destruct (ParseRequestURI (RequestURI (In pr))) as [u|]; [|discriminate].
  intros [= <-]. exists u. split; [reflexivity|].
  cbn [Scheme Opaque UHost Path RawQuery].
  destruct (String.eqb (Scheme u) ""); reflexivity.
Qed.

(** The handler contacts the origin at most once for a request, and only
    at the host the request names, which is one of the targets; the scheme
    of the outbound URL is never empty and the method is that of the
    request. *)
Theorem origin_requests_go_to_targets (s : Server) (w : ResponseWriter)
    (r : Request) (tr : list Obs) (out : outcome ResponseWriter) :
  Run (ServeHTTP s w r) tr out ->
  (length (round_trips tr) <= 1)%nat
  /\ Forall (fun o => List.In (Host o) (Targets s)
                      /\ Host o = Host r
                      /\ UHost (RURL o) = Host r
                      /\ Scheme (RURL o) <> ""
                      /\ Method o = Method r)
            (round_trips tr).
Proof.
  intros H.
  assert (Hout : forall p, rewriteRequest (mkProxyRequest r r) = Done p ->
                   Host (Out p) = Host r /\ UHost (RURL (Out p)) = Host r
                   /\ Scheme (RURL (Out p)) <> "" /\ Method (Out p) = Method r).
  { intros p Hp. apply rewriteRequest_Done in Hp as (u & _ & ->).
    cbn [In Out Host RURL UHost Scheme Method]. repeat split; try reflexivity.
    destruct (String.eqb_spec (Scheme u) ""); [discriminate|assumption]. }
  unfold ServeHTTP, ReverseProxy_ServeHTTP, modifyResponse in H.
  destruct s as [targets loc kp lf lr]. cbn [Targets Logf LogRequests] in *.
  destruct (hostMatchesTarget (Host r) targets) eqn:Hhost;
    destruct lf, lr; run_inv H; cbn; (split; [lia|]);
    repeat match goal with
      | |- Forall _ [] => constructor
      | |- Forall _ (_ :: _) => constructor
      end;
    match goal with
    | p : ProxyRequest |- _ =>
        destruct (Hout p eq_refl) as (H1 & H2 & H3 & H4);
        apply hostMatchesTarget_In in Hhost;
        repeat split; solve [assumption | rewrite H1; assumption]
    end.
Qed.

End HandlerInvariants.

(** ** The hash *)

Lemma hex_pair_back (c : ascii) :
  let hi := (N_of_ascii c / 16)%N in
  let lo := (N_of_ascii c mod 16)%N in
  let digit (n : N) : ascii :=
    if (n <? 10)%N then ascii_of_N (48 + n) else ascii_of_N (87 + n) in
  ascii_of_N (16 * hex_value (digit hi) + hex_value (digit lo))%N = c
  /\ is_lower_hex (digit hi) = true /\ is_lower_hex (digit lo) = true.
Proof.
  destruct c as [[] [] [] [] [] [] [] []]; vm_compute; repeat split.
Qed.

Lemma unhexString_hexString (s : string) : unhexString (hexString s) = s.
Proof.
  induction s as [|c s IH]; [reflexivity|].
  cbn [hexString unhexString]. rewrite IH.
  f_equal. apply (hex_pair_back c).
Qed.

Lemma hexString_lower_hex (s : string) :
  forallb is_lower_hex (list_ascii_of_string (hexString s)) = true.
Proof.
  induction s as [|c s IH]; [reflexivity|].
  cbn [hexString list_ascii_of_string forallb]. rewrite IH.
  destruct (hex_pair_back c) as (_ & -> & ->). reflexivity.
Qed.

Section HashFacts.

Context `{lib : Library}.

(** The cache key of a URL is the digest in lower-case hex, two digits per
    byte, and can be read back: two URLs have the same key exactly when
    their digests are equal.  For a 32-byte digest it has 64 characters, so
    the two-character prefix taken from it exists. *)
Theorem hashRequestURL_hex (u : URL) :
  unhexString (hashRequestURL u) = sha256_Sum256 (URL_String u)
  /\ (forall u', hashRequestURL u = hashRequestURL u' <->
                 sha256_Sum256 (URL_String u) = sha256_Sum256 (URL_String u'))
  /\ forallb is_lower_hex (list_ascii_of_string (hashRequestURL u)) = true
  /\ String.length (hashRequestURL u)
     = (2 * String.length (sha256_Sum256 (URL_String u)))%nat
  /\ (String.length (sha256_Sum256 (URL_String u)) = 32%nat ->
      String.length (hashRequestURL u) = 64%nat).
Proof.
  unfold hashRequestURL.
  split; [apply unhexString_hexString|]. split.
  - intros u'. split; [|congruence].
    intros Heq. apply (f_equal unhexString) in Heq.
    rewrite !unhexString_hexString in Heq. exact Heq.
  - split; [apply hexString_lower_hex|].
    split; [apply hexString_length|].
    intros Hlen. rewrite hexString_length, Hlen. reflexivity.
Qed.

End HashFacts.

(** ** Metrics *)

(** [Metrics] publishes each of the fifteen counters under a name of its
    own: no call of [Set] replaces an earlier one, and a name leads to one
    counter only. *)
Theorem Metrics_names :
  size Metrics = 15%nat
  /\ (forall c, Metrics !! metric_name c = Some c)
  /\ (forall name c, Metrics !! name = Some c -> name = metric_name c)
  /\ (forall c c', metric_name c = metric_name c' -> c = c').
Proof.
  split; [vm_compute; reflexivity|]. split.
  { intros c. destruct c; vm_compute; reflexivity. }
  split.
  - intros name c Hlook. apply elem_of_map_to_list in Hlook.
    assert (Hlist : map_to_list Metrics
                    = (fun c => (metric_name c, c)) <$> (snd <$> map_to_list Metrics))
      by (vm_compute; reflexivity).
    rewrite Hlist in Hlook. apply list_elem_of_fmap in Hlook as (c' & [= -> ->] & _).
    reflexivity.
  - intros c c'. destruct c, c'; vm_compute; congruence.
Qed.

(** ** Cache-Control headers with a max-age *)

Lemma Atoi_cons (c : ascii) (s : string) :
  strconv.Atoi (String c s)
  = let '(neg, body) :=
      if Ascii.eqb c "-"%char then (true, s)
      else if Ascii.eqb c "+"%char then (false, s)
      else (false, String c s) in
    match body with
    | EmptyString => None
    | _ =>
        match strconv.digits 0 body with
        | None => None
        | Some n =>
            let v := if neg then - n else n in
            if (strconv.minInt <=? v) && (v <=? strconv.maxInt)
            then Some v else None
        end
    end.
Proof. destruct c as [[] [] [] [] [] [] [] []]; reflexivity. Qed.

Lemma digits_all (s : string) (acc n : Z) :
  strconv.digits acc s = Some n ->
  forallb strconv.isDigit (list_ascii_of_string s) = true.
Proof.
  revert acc. induction s as [|c s IH]; intros acc; cbn; [reflexivity|].
  destruct (strconv.isDigit c); [|discriminate]. apply IH.
Qed.

(** What [strconv.Atoi] accepts is made of digits and signs. *)
Lemma Atoi_chars (val : string) (sec : Z) :
  strconv.Atoi val = Some sec ->
  forallb digit_or_sign (list_ascii_of_string val) = true.
Proof.
  destruct val as [|c s]; [discriminate|]. rewrite Atoi_cons.
  assert (Hall : forall s n, strconv.digits 0 s = Some n ->
                   forallb digit_or_sign (list_ascii_of_string s) = true).
  { intros s0 n Hd. apply digits_all in Hd.
    rewrite forallb_forall in *. intros x Hx. unfold digit_or_sign.
    rewrite (Hd x Hx). reflexivity. }
  cbn [list_ascii_of_string forallb]. unfold digit_or_sign at 1.
  destruct (Ascii.eqb c "-") eqn:Hm.
  { rewrite orb_true_r. cbn [orb andb]. destruct s; [discriminate|].
    destruct (strconv.digits 0 (String a s)) eqn:Hd; [|discriminate].
    intros _. exact (Hall _ _ Hd). }
  destruct (Ascii.eqb c "+") eqn:Hp.
  { rewrite orb_true_r. cbn [andb]. destruct s; [discriminate|].
    destruct (strconv.digits 0 (String a s)) eqn:Hd; [|discriminate].
    intros _. exact (Hall _ _ Hd). }
  destruct (strconv.digits 0 (String c s)) eqn:Hd; [|discriminate].
  intros _. apply Hall in Hd. cbn [list_ascii_of_string forallb] in Hd.
  unfold digit_or_sign at 1 in Hd. rewrite Hm, Hp in *. exact Hd.
Qed.

Lemma digit_or_sign_plain (c : ascii) :
  digit_or_sign c = true -> plain c = true /\ Ascii.eqb c ","%char = false.
Proof. destruct c as [[] [] [] [] [] [] [] []]; vm_compute; auto; discriminate. Qed.

Lemma Split_no_sep (s : string) (sep : ascii) :
  forallb (fun c => negb (Ascii.eqb c sep)) (list_ascii_of_string s) = true ->
  strings.Split s sep = [s].
Proof.
  induction s as [|c s IH]; cbn; [reflexivity|].
  intros [Hc Hs]%andb_true_iff. apply negb_true_iff in Hc.
  rewrite Hc, (IH Hs). reflexivity.
Qed.

Lemma Split_app_sep (p q : string) (sep : ascii) :
  forallb (fun c => negb (Ascii.eqb c sep)) (list_ascii_of_string p) = true ->
  strings.Split (p ++ String sep q) sep = p :: strings.Split q sep.
Proof.
  induction p as [|c p IH]; intros Hp.
  - change (strings.Split (String sep q) sep = "" :: strings.Split q sep).
    cbn [strings.Split]. rewrite Ascii.eqb_refl. reflexivity.
  - cbn [list_ascii_of_string forallb] in Hp.
    apply andb_true_iff in Hp as [Hc Hp]. apply negb_true_iff in Hc.
    change (strings.Split (String c (p ++ String sep q)) sep
            = String c p :: strings.Split q sep).
    cbn [strings.Split]. rewrite Hc, (IH Hp). reflexivity.
Qed.

Lemma trimRightSpace_plain (s : string) :
  forallb plain (list_ascii_of_string s) = true -> strings.trimRightSpace s = s.
Proof.
  intros Hall. unfold strings.trimRightSpace.
  assert (Hrev : strings.trimLeftSpaceRev (rev (list_ascii_of_string s))
                 = rev (list_ascii_of_string s)).
  { destruct (rev (list_ascii_of_string s)) as [|c l] eqn:Hr; [reflexivity|].
    assert (Hc : plain c = true).
    { rewrite forallb_forall in Hall. apply Hall. apply in_rev.
      rewrite Hr. left. reflexivity. }
    unfold plain in Hc. apply andb_true_iff in Hc as [H1 H2].
    apply negb_true_iff in H2. cbn [strings.trimLeftSpaceRev].
    rewrite H1, H2. reflexivity. }
  rewrite Hrev, rev_involutive. apply string_of_list_ascii_of_string.
Qed.

Lemma list_ascii_of_string_app (s t : string) :
  list_ascii_of_string (s ++ t)%string
  = list_ascii_of_string s ++ list_ascii_of_string t.
Proof.
  induction s as [|c s IH]; [reflexivity|].
  change (c :: list_ascii_of_string (s ++ t)%string
          = c :: (list_ascii_of_string s ++ list_ascii_of_string t)).
  f_equal. exact IH.
Qed.

(** The parse of a header that is one max-age directive. *)
Lemma parseCacheControl_max_age (val : string) (sec : Z) :
  strconv.Atoi val = Some sec ->
  parseCacheControl ("max-age=" ++ val)
  = mkCacheControl (∅ ∪ {["max-age"]}) (time.mul sec time.Second).
Proof.
  intros Hsec. pose proof (Atoi_chars val sec Hsec) as Hchars.
  assert (Hplain : forallb plain (list_ascii_of_string val) = true
                   /\ forallb (fun c => negb (Ascii.eqb c ","))
                              (list_ascii_of_string val) = true).
  { rewrite !forallb_forall in *. split; intros c Hc;
      destruct (digit_or_sign_plain c (Hchars c Hc)) as [H1 H2];
      [assumption|rewrite H2; reflexivity]. }
  destruct Hplain as [Hplain Hcomma].
  unfold parseCacheControl.
  rewrite Split_no_sep.
  2: { rewrite list_ascii_of_string_app, forallb_app, Hcomma. reflexivity. }
  cbn [foldl]. unfold parseCacheControl_step, strings.TrimSpace.
  change (strings.trimLeftSpace ("max-age=" ++ val)) with ("max-age=" ++ val)%string.
  rewrite trimRightSpace_plain.
  2: { rewrite list_ascii_of_string_app, forallb_app, Hplain. reflexivity. }
  change (strings.Cut ("max-age=" ++ val) "=") with ("max-age", val, true).
  cbn [andb String.eqb Ascii.eqb Bool.eqb]. rewrite Hsec. reflexivity.
Qed.

(** The parse of [must-revalidate] followed by a max-age directive. *)
Lemma parseCacheControl_must_revalidate_max_age (val : string) (sec : Z) :
  strconv.Atoi val = Some sec ->
  parseCacheControl ("must-revalidate, max-age=" ++ val)
  = mkCacheControl (∅ ∪ {["must-revalidate"]} ∪ {["max-age"]})
                   (time.mul sec time.Second).
Proof.
  intros Hsec. pose proof (Atoi_chars val sec Hsec) as Hchars.
  assert (Hplain : forallb plain (list_ascii_of_string val) = true
                   /\ forallb (fun c => negb (Ascii.eqb c ","))
                              (list_ascii_of_string val) = true).
  { rewrite !forallb_forall in *. split; intros c Hc;
      destruct (digit_or_sign_plain c (Hchars c Hc)) as [H1 H2];
      [assumption|rewrite H2; reflexivity]. }
  destruct Hplain as [Hplain Hcomma].
  unfold parseCacheControl.
  assert (Hsplit : strings.Split ("must-revalidate, max-age=" ++ val) ","
                   = ["must-revalidate"; (" max-age=" ++ val)%string]).
  { change ("must-revalidate, max-age=" ++ val)%string
      with ("must-revalidate" ++ String "," (" max-age=" ++ val))%string.
    rewrite Split_app_sep by reflexivity. rewrite Split_no_sep; [reflexivity|].
    rewrite list_ascii_of_string_app, forallb_app, Hcomma. reflexivity. }
  rewrite Hsplit. cbn [foldl].
  unfold parseCacheControl_step at 2.
  change (strings.Cut (strings.TrimSpace "must-revalidate") "=")
    with ("must-revalidate", "", false).
  cbn [andb Keys MaxAge].
  unfold parseCacheControl_step, strings.TrimSpace.
  change (strings.trimLeftSpace (" max-age=" ++ val)) with ("max-age=" ++ val)%string.
  rewrite trimRightSpace_plain.
  2: { rewrite list_ascii_of_string_app, forallb_app, Hplain. reflexivity. }
  change (strings.Cut ("max-age=" ++ val) "=") with ("max-age", val, true).
  cbn [andb String.eqb Ascii.eqb Bool.eqb]. rewrite Hsec. reflexivity.
Qed.

Lemma wrap64_range (z : Z) : - 2 ^ 63 <= time.wrap64 z < 2 ^ 63.
Proof.
  unfold time.wrap64.
  pose proof (Z.mod_pos_bound (z + 2 ^ 63) (2 ^ 64) ltac:(lia)). lia.
Qed.

Lemma wrap64_small (z : Z) : - 2 ^ 63 <= z < 2 ^ 63 -> time.wrap64 z = z.
Proof. intros Hz. unfold time.wrap64. rewrite Z.mod_small; lia. Qed.

Lemma mul_Second_exact (sec : Z) :
  -9223372036 <= sec <= 9223372036 ->
  time.mul sec time.Second = sec * 1000000000.
Proof.
  intros Hsec. unfold time.mul, time.Second. apply wrap64_small. lia.
Qed.

(** The seconds of a max-age become nanoseconds in an int64: the product is
    exact for the seconds from -9223372036 to 9223372036 and for no others,
    and from 9223372037 to 18446744073 seconds it comes out negative. *)
Theorem max_age_seconds_overflow (sec : Z) :
  (time.mul sec time.Second = sec * 1000000000
   <-> -9223372036 <= sec <= 9223372036)
  /\ (9223372037 <= sec <= 18446744073 ->
      time.mul sec time.Second = sec * 1000000000 - 2 ^ 64
      /\ time.mul sec time.Second < 0)
  /\ - 2 ^ 63 <= time.mul sec time.Second < 2 ^ 63.
Proof.
  split; [split|split].
  - intros Heq. pose proof (wrap64_range (sec * time.Second)) as Hr.
    unfold time.mul in Heq. rewrite Heq in Hr. lia.
  - apply mul_Second_exact.
  - intros Hsec.
    assert (Heq : time.mul sec time.Second = sec * 1000000000 - 2 ^ 64).
    { unfold time.mul, time.wrap64, time.Second.
      replace (sec * 1000000000 + 2 ^ 63)
        with (sec * 1000000000 - 2 ^ 63 + 1 * 2 ^ 64) by lia.
      rewrite Z.mod_add by lia. rewrite Z.mod_small; lia. }
    split; [exact Heq|]. rewrite Heq. lia.
  - apply wrap64_range.
Qed.

(** A response whose Cache-Control is one max-age directive, of a number
    of seconds that fits the int64 nanoseconds, is never stored on disk; it
    is kept in memory exactly when its status is 200 and the max-age is from
    1 to 3599 seconds, and then for that time. *)
Theorem max_age_alone_is_volatile (rsp : Response) (val : string) (sec : Z) :
  http.Header_Get (RspHeader rsp) "Cache-Control" = ("max-age=" ++ val)%string ->
  strconv.Atoi val = Some sec ->
  -9223372036 <= sec <= 9223372036 ->
  canCacheResponse rsp = false
  /\ canMemoryCache rsp
     = (if (StatusCode rsp =? 200) && (1 <=? sec) && (sec <=? 3599)
        then (sec * 1000000000, true) else (0, false)).
Proof.
  intros Hhdr Hval Hsec.
  assert (Hno : forall k, k <> "max-age" ->
                  Has (∅ ∪ {["max-age"]} : gset string) k = false).
  { intros k Hk. apply Has_false. set_solver. }
  unfold canCacheResponse, canMemoryCache.
  rewrite Hhdr, (parseCacheControl_max_age val sec Hval).
  cbn [Keys MaxAge]. rewrite !Hno by discriminate.
  rewrite (mul_Second_exact sec Hsec).
  unfold http.StatusOK, time.Hour, time.Second.
  destruct (StatusCode rsp =? 200); cbn [negb andb orb]; [|split; reflexivity].
  split; [reflexivity|].
  destruct (1 <=? sec) eqn:H1; destruct (sec <=? 3599) eqn:H2;
    destruct (0 <? sec * 1000000000) eqn:H3;
    destruct (sec * 1000000000 <? 3600 * 1000000000) eqn:H4;
    cbn [andb]; try reflexivity; lia.
Qed.

(** With must-revalidate before it, a max-age that fits the int64
    nanoseconds makes a response with status 200 durable exactly when it
    is above 5184000 seconds: sixty days to the second are not enough.
    Below one hour the response is volatile, and it is never both. *)
Theorem must_revalidate_max_age_threshold (rsp : Response) (val : string)
    (sec : Z) :
  http.Header_Get (RspHeader rsp) "Cache-Control"
  = ("must-revalidate, max-age=" ++ val)%string ->
  strconv.Atoi val = Some sec ->
  -9223372036 <= sec <= 9223372036 ->
  canCacheResponse rsp = (StatusCode rsp =? 200) && (5184001 <=? sec)
  /\ canMemoryCache rsp
     = (if (StatusCode rsp =? 200) && (1 <=? sec) && (sec <=? 3599)
        then (sec * 1000000000, true) else (0, false))
  /\ canCacheResponse rsp && (canMemoryCache rsp).2 = false.
Proof.
  intros Hhdr Hval Hsec.
  assert (Hno : forall k, k <> "max-age" -> k <> "must-revalidate" ->
                  Has (∅ ∪ {["must-revalidate"]} ∪ {["max-age"]} : gset string) k
                  = false).
  { intros k Hk Hk'. apply Has_false. set_solver. }
  assert (Hyes : Has (∅ ∪ {["must-revalidate"]} ∪ {["max-age"]} : gset string)
                     "must-revalidate" = true).
  { apply Has_true. set_solver. }
  unfold canCacheResponse, canMemoryCache.
  rewrite Hhdr, (parseCacheControl_must_revalidate_max_age val sec Hval).
  cbn [Keys MaxAge]. rewrite !Hno by discriminate. rewrite Hyes.
  rewrite (mul_Second_exact sec Hsec).
  unfold goodLongTime, http.StatusOK, time.Hour, time.Second.
  destruct (StatusCode rsp =? 200); cbn [negb andb orb];
    [|repeat split; reflexivity].
  destruct (5184001 <=? sec) eqn:H0;
    destruct (60 * 24 * (3600 * 1000000000) <? sec * 1000000000) eqn:H5;
    try lia;
    destruct (1 <=? sec) eqn:H1; destruct (sec <=? 3599) eqn:H2;
    destruct (0 <? sec * 1000000000) eqn:H3;
    destruct (sec * 1000000000 <? 3600 * 1000000000) eqn:H4;
    cbn [andb snd]; try lia; repeat split; reflexivity.
Qed.

(** A max-age from 9223372037 to 18446744073 seconds is read as a negative
    time: the response is stored nowhere, with must-revalidate or
    without. *)
Theorem max_age_beyond_int64_not_cached (rsp : Response) (val : string)
    (sec : Z) :
  http.Header_Get (RspHeader rsp) "Cache-Control" = ("max-age=" ++ val)%string
  \/ http.Header_Get (RspHeader rsp) "Cache-Control"
     = ("must-revalidate, max-age=" ++ val)%string ->
  strconv.Atoi val = Some sec ->
  9223372037 <= sec <= 18446744073 ->
  canCacheResponse rsp = false /\ canMemoryCache rsp = (0, false).
Proof.
  intros Hhdr Hval Hsec.
  assert (Hneg : time.mul sec time.Second < 0).
  { unfold time.mul, time.wrap64, time.Second.
    replace (sec * 1000000000 + 2 ^ 63)
      with (sec * 1000000000 - 2 ^ 63 + 1 * 2 ^ 64) by lia.
    rewrite Z.mod_add by lia. rewrite Z.mod_small; lia. }
  assert (Hlong : (goodLongTime <? time.mul sec time.Second) = false).
  { assert (0 < goodLongTime) by reflexivity. apply Z.ltb_ge. lia. }
  assert (Hpos : (0 <? time.mul sec time.Second) = false).
  { apply Z.ltb_ge. lia. }
  unfold canCacheResponse, canMemoryCache.
  destruct Hhdr as [Hhdr|Hhdr]; rewrite Hhdr.
  - rewrite (parseCacheControl_max_age val sec Hval). cbn [Keys MaxAge].
    rewrite Hpos.
    assert (Hno : forall k, k <> "max-age" ->
                    Has (∅ ∪ {["max-age"]} : gset string) k = false).
    { intros k Hk. apply Has_false. set_solver. }
    rewrite !Hno by discriminate.
    destruct (negb (StatusCode rsp =? http.StatusOK)); split; reflexivity.
  - rewrite (parseCacheControl_must_revalidate_max_age val sec Hval).
    cbn [Keys MaxAge]. rewrite Hpos, Hlong.
    assert (Hno : forall k, k <> "max-age" -> k <> "must-revalidate" ->
                    Has (∅ ∪ {["must-revalidate"]} ∪ {["max-age"]}
                         : gset string) k = false).
    { intros k Hk Hk'. apply Has_false. set_solver. }
    rewrite !Hno by discriminate. rewrite andb_false_r.
    destruct (negb (StatusCode rsp =? http.StatusOK)); split; reflexivity.
Qed.

(** Without a Cache-Control header, or with an empty one, a request may be
    cached exactly when it is a GET, and a response is stored nowhere. *)
Theorem missing_cache_control (r : Request) (rsp : Response) :
  http.Header_Get (ReqHeader r) "Cache-Control" = "" ->
  http.Header_Get (RspHeader rsp) "Cache-Control" = "" ->
  canCacheRequest r = String.eqb (Method r) "GET"
  /\ canCacheResponse rsp = false
  /\ canMemoryCache rsp = (0, false).
Proof.
  intros Hreq Hrsp.
  assert (Hempty : parseCacheControl "" = mkCacheControl (∅ ∪ {[""]}) 0)
    by reflexivity.
  assert (Hno : forall k, k <> "" -> Has (∅ ∪ {[""]} : gset string) k = false).
  { intros k Hk. apply Has_false. set_solver. }
  unfold canCacheRequest, canCacheResponse, canMemoryCache.
  rewrite Hreq, Hrsp, Hempty. cbn [Keys MaxAge]. rewrite !Hno by discriminate.
  cbn [negb andb orb Z.ltb Z.compare]. rewrite andb_true_r.
  destruct (negb (StatusCode rsp =? http.StatusOK)); repeat split; reflexivity.
Qed.

(** ** Rewriting and writing *)

Section RewriteFacts.

Context `{lib : Library}.

(** When [rewriteRequest] completes, the inbound request is as it was and
    the outbound one goes to the inbound host, under the scheme of the
    request URI or https when that has none, with the path and query of the
    request URI; rewriting the result again changes nothing. *)
Theorem rewriteRequest_settles (pr pr' : ProxyRequest) :
  rewriteRequest pr = Done pr' ->
  In pr' = In pr
  /\ Host (Out pr') = Host (In pr)
  /\ UHost (RURL (Out pr')) = Host (In pr)
  /\ Scheme (RURL (Out pr')) <> ""
  /\ (exists u, ParseRequestURI (RequestURI (In pr)) = Some u
                /\ (Scheme u <> "" -> Scheme (RURL (Out pr')) = Scheme u)
                /\ (Scheme u = "" -> Scheme (RURL (Out pr')) = "https")
                /\ Path (RURL (Out pr')) = Path u
                /\ RawQuery (RURL (Out pr')) = RawQuery u
                /\ Opaque (RURL (Out pr')) = Opaque u)
  /\ Method (Out pr') = Method (Out pr)
  /\ ReqHeader (Out pr') = ReqHeader (Out pr)
  /\ RequestURI (Out pr') = RequestURI (Out pr)
  /\ rewriteRequest pr' = Done pr'.
Proof.
  intros Hpr. pose proof Hpr as Hagain.
  apply rewriteRequest_Done in Hpr as (u & Hu & ->).
  cbn [In Out Host RURL UHost Scheme Path RawQuery Opaque Method ReqHeader
       RequestURI].
  repeat split.
  - destruct (String.eqb_spec (Scheme u) ""); [discriminate|assumption].
  - exists u. repeat split; try assumption.
    + intros Hs. destruct (String.eqb_spec (Scheme u) ""); congruence.
    + intros Hs. destruct (String.eqb_spec (Scheme u) ""); congruence.
  - unfold rewriteRequest. cbn [In Out]. rewrite Hu.
    cbn [Scheme Opaque UHost Path RawQuery Method RequestURI ReqHeader].
    destruct (String.eqb (Scheme u) ""); reflexivity.
Qed.

End RewriteFacts.

Lemma addAll_values (wh hdr : http.Header) :
  canonical_keys hdr ->
  forall k, default [] (writer.addAll wh hdr !! k)
            = default [] (wh !! k) ++ default [] (hdr !! k).
Proof.
  unfold writer.addAll.
  apply (map_fold_weak_ind
           (fun (r m : http.Header) =>
              canonical_keys m ->
              forall k, default [] (r !! k)
                        = default [] (wh !! k) ++ default [] (m !! k))).
  - intros _ k. rewrite lookup_empty. cbn. rewrite app_nil_r. reflexivity.
  - intros i x m r Hi IH Hcanon k.
    assert (Hni : http.CanonicalMIMEHeaderKey i = i).
    { apply (Hcanon i x). apply lookup_insert_eq. }
    assert (Hm : canonical_keys m).
    { intros j vals Hj. apply (Hcanon j vals).
      rewrite lookup_insert_ne; [assumption|]. congruence. }
    rewrite Header_Add_fold by assumption. rewrite lookup_insert.
    case_decide.
    + subst k. rewrite (IH Hm i), Hi. cbn. rewrite app_nil_r. reflexivity.
    + apply (IH Hm).
Qed.

(** A cached response is written on top of what the writer holds: the
    values of each header name of the entry come after the values the
    writer had under that name, the body after the bytes already written,
    and the status is 200 unless one was sent before. *)
Theorem writeCachedResponse_appends (w : ResponseWriter) (hdr : http.Header)
    (body : bytes) :
  canonical_keys hdr ->
  let w' := writeCachedResponse w hdr body in
  (forall k, default [] (wHeader w' !! k)
             = default [] (wHeader w !! k) ++ default [] (hdr !! k))
  /\ (forall name, http.Header_Values w' .(wHeader) name
                   = http.Header_Values (wHeader w) name
                     ++ http.Header_Values hdr name)
  /\ wBody w' = (wBody w ++ body)%string
  /\ wStatus w' = Some (default http.StatusOK (wStatus w)).
Proof.
  intros Hcanon w'. subst w'.
  unfold writeCachedResponse, writer.Write, writer.WriteHeader, writer.setHeader.
  cbn [wHeader wStatus wBody].
  destruct (wStatus w) as [code|]; cbn [wHeader wStatus wBody default];
    repeat split; try (intros k; apply addAll_values; assumption).
Qed.

(** * Package gcsutil *)

Lemma ignoreHeaders_loop_header (headers : list string)
    (st : gmap string string * http.Header) (k : string) :
  (foldl gcsutil.ignoreHeaders_step st headers).2 !! k
  = if decide (k ∈ http.CanonicalMIMEHeaderKey <$> headers) then None
    else st.2 !! k.
Proof.
  revert st. induction headers as [|h t IH]; intros st; cbn [foldl fmap list_fmap].
  - case_decide as Hk; [|reflexivity]. set_solver.
  - rewrite IH. cbn [gcsutil.ignoreHeaders_step snd]. unfold http.Header_Del.
    destruct (decide (k = http.CanonicalMIMEHeaderKey h)) as [->|Hne].
    + rewrite lookup_delete_eq.
      repeat case_decide; try reflexivity; set_solver.
    + rewrite lookup_delete_ne by congruence.
      repeat case_decide; try reflexivity; set_solver.
Qed.

Lemma ignoreHeaders_loop_other (headers : list string)
    (st : gmap string string * http.Header) (h : string) :
  h ∉ headers ->
  (foldl gcsutil.ignoreHeaders_step st headers).1 !! h = st.1 !! h.
Proof.
  revert st. induction headers as [|h' t IH]; intros st Hh; cbn [foldl].
  - reflexivity.
  - rewrite IH by set_solver. cbn [gcsutil.ignoreHeaders_step fst].
    apply lookup_insert_ne. set_solver.
Qed.

Lemma ignoreHeaders_loop_dom (headers : list string)
    (st : gmap string string * http.Header) (h : string) :
  is_Some ((foldl gcsutil.ignoreHeaders_step st headers).1 !! h)
  <-> h ∈ headers \/ is_Some (st.1 !! h).
Proof.
  revert st. induction headers as [|h' t IH]; intros st; cbn [foldl].
  - set_solver.
  - rewrite IH. cbn [gcsutil.ignoreHeaders_step fst].
    rewrite lookup_insert_is_Some. 
    destruct (decide (h' = h)); set_solver.
Qed.

Lemma Header_Get_lookup (hdr : http.Header) (h : string) :
  hdr !! http.CanonicalMIMEHeaderKey h = None -> http.Header_Get hdr h = "".
Proof. unfold http.Header_Get. intros ->. reflexivity. Qed.

(** The entry of [ignored] for a listed name, by its last place in the
    list. *)
Lemma ignoreHeaders_loop_entry (l1 l2 : list string) (h : string)
    (hdr : http.Header) :
  h ∉ l2 ->
  (gcsutil.ignoreHeaders_loop (l1 ++ h :: l2) hdr).1 !! h
  = Some (if decide (http.CanonicalMIMEHeaderKey h
                     ∈ http.CanonicalMIMEHeaderKey <$> l1)
          then "" else http.Header_Get hdr h).
Proof.
  intros Hl2. unfold gcsutil.ignoreHeaders_loop.
  rewrite foldl_app. cbn [foldl].
  rewrite ignoreHeaders_loop_other by assumption.
  cbn [gcsutil.ignoreHeaders_step fst]. rewrite lookup_insert_eq. f_equal.
  unfold http.Header_Get at 1. rewrite ignoreHeaders_loop_header.
  case_decide; reflexivity.
Qed.

(** [ignoreHeaders] takes every listed header out of the request, under
    whatever spelling it is listed, and leaves the other fields alone; the
    map it passes on has the listed names as its keys.  The value kept for
    a name is the first value the request had for it, unless the name, or
    another spelling of it, stands earlier in the list: then it is the empty
    string, and the value of the request is kept under the earlier name
    only.  A request of another type is refused. *)
Theorem ignoreHeaders_removes_listed (headers : list string)
    (hdr : http.Header) :
  let ignored := (gcsutil.ignoreHeaders_loop headers hdr).1 in
  let hdr' := (gcsutil.ignoreHeaders_loop headers hdr).2 in
  (forall h, h ∈ headers ->
     http.Header_Values hdr' h = [] /\ http.Header_Get hdr' h = "")
  /\ (forall k, k ∉ http.CanonicalMIMEHeaderKey <$> headers ->
        hdr' !! k = hdr !! k)
  /\ (forall h, is_Some (ignored !! h) <-> h ∈ headers)
  /\ (forall l1 l2 h, headers = l1 ++ h :: l2 -> h ∉ l2 ->
        ignored !! h
        = Some (if decide (http.CanonicalMIMEHeaderKey h
                           ∈ http.CanonicalMIMEHeaderKey <$> l1)
                then "" else http.Header_Get hdr h))
  /\ (forall (R : Type) (next : gcsutil.StackValue -> gcsutil.FinalizeRequest -> R)
             ctx,
        gcsutil.ignoreHeaders headers next ctx (gcsutil.SmithyRequest hdr)
        = gcsutil.Next (next (Some ignored) (gcsutil.SmithyRequest hdr'))
        /\ forall t, exists msg,
             gcsutil.ignoreHeaders headers next ctx (gcsutil.OtherRequest t)
             = gcsutil.SigningError msg).
Proof.
  intros ignored hdr'. subst ignored hdr'. unfold gcsutil.ignoreHeaders_loop.
  repeat split.
  - unfold http.Header_Values. rewrite ignoreHeaders_loop_header.
    case_decide as Hk; [reflexivity|]. exfalso. apply Hk.
    apply list_elem_of_fmap. eauto.
  - apply Header_Get_lookup. rewrite ignoreHeaders_loop_header.
    case_decide as Hk; [reflexivity|]. exfalso. apply Hk.
    apply list_elem_of_fmap. eauto.
  - intros k Hk. rewrite ignoreHeaders_loop_header.
    case_decide; [contradiction|reflexivity].
  - intros Hs. apply ignoreHeaders_loop_dom in Hs as [Hs|Hs]; [assumption|].
    cbn in Hs. rewrite lookup_empty in Hs. destruct Hs; discriminate.
  - intros Hs. apply ignoreHeaders_loop_dom. left. assumption.
  - intros l1 l2 h -> Hl2. apply ignoreHeaders_loop_entry. assumption.
  - unfold gcsutil.ignoreHeaders, gcsutil.ignoreHeaders_loop.
    destruct (foldl gcsutil.ignoreHeaders_step (∅, hdr) headers). reflexivity.
  - intros t. eexists. reflexivity.
Qed.

Lemma NoDup_fmap_inj_on {A B : Type} (f : A -> B) (l : list A) (x y : A) :
  NoDup (f <$> l) -> x ∈ l -> y ∈ l -> f x = f y -> x = y.
Proof.
  induction l as [|a l IH]; cbn [fmap list_fmap]; intros Hnd Hx Hy Hf.
  - inversion Hx.
  - apply NoDup_cons in Hnd as [Ha Hnd].
    apply elem_of_cons in Hx as [->|Hx]; apply elem_of_cons in Hy as [->|Hy].
    + reflexivity.
    + exfalso. apply Ha. rewrite Hf. apply list_elem_of_fmap_2. assumption.
    + exfalso. apply Ha. rewrite <- Hf. apply list_elem_of_fmap_2. assumption.
    + apply IH; assumption.
Qed.

Lemma restoreIgnored_loop_other (entries : list (string * string))
    (hdr : http.Header) (k : string) :
  k ∉ http.CanonicalMIMEHeaderKey <$> entries.*1 ->
  gcsutil.restoreIgnored_loop entries hdr !! k = hdr !! k.
Proof.
  unfold gcsutil.restoreIgnored_loop. revert hdr.
  induction entries as [|[k0 v0] t IH]; intros hdr Hk; cbn [foldl].
  - reflexivity.
  - cbn [fmap list_fmap fst] in Hk. apply not_elem_of_cons in Hk as [Hne Hk].
    rewrite (IH _ Hk). unfold http.Header_Set.
    apply lookup_insert_ne. congruence.
Qed.

Lemma restoreIgnored_loop_entry (entries : list (string * string))
    (hdr : http.Header) (h v : string) :
  NoDup (http.CanonicalMIMEHeaderKey <$> entries.*1) ->
  (h, v) ∈ entries ->
  gcsutil.restoreIgnored_loop entries hdr !! http.CanonicalMIMEHeaderKey h
  = Some [v].
Proof.
  revert hdr. induction entries as [|[k0 v0] t IH]; intros hdr Hnd Hin.
  - inversion Hin.
  - cbn [fmap list_fmap fst] in Hnd. apply NoDup_cons in Hnd as [Hk0 Hnd].
    apply elem_of_cons in Hin as [[= -> ->]|Hin].
    + change (gcsutil.restoreIgnored_loop t (http.Header_Set hdr k0 v0)
              !! http.CanonicalMIMEHeaderKey k0 = Some [v0]).
      rewrite restoreIgnored_loop_other by assumption.
      unfold http.Header_Set. apply lookup_insert_eq.
    + change (gcsutil.restoreIgnored_loop t (http.Header_Set hdr k0 v0)
              !! http.CanonicalMIMEHeaderKey h = Some [v]).
      apply IH; assumption.
Qed.

(** When no two listed names are spellings of one field, [restoreIgnored]
    after [ignoreHeaders] gives each listed field one value, whatever the
    signing step in between left under that name and in whatever order the
    map is gone through: the first value the request had, and the empty
    string for a field the request did not have.  The fields that are not
    listed stay as the signing step left them.  If every listed field had
    exactly one value and nothing else was changed in between, the header
    is the one the request came with. *)
Theorem restoreIgnored_puts_back (headers : list string)
    (hdr signed : http.Header) (entries : list (string * string)) :
  NoDup (http.CanonicalMIMEHeaderKey <$> headers) ->
  gcsutil.ranges (gcsutil.ignoreHeaders_loop headers hdr).1 entries ->
  let final := gcsutil.restoreIgnored_loop entries signed in
  (forall h, h ∈ headers ->
     http.Header_Values final h = [http.Header_Get hdr h])
  /\ (forall h, h ∈ headers ->
        hdr !! http.CanonicalMIMEHeaderKey h = None ->
        http.Header_Values final h = [""])
  /\ (forall k, k ∉ http.CanonicalMIMEHeaderKey <$> headers ->
        final !! k = signed !! k)
  /\ ((forall h, h ∈ headers ->
         exists v, hdr !! http.CanonicalMIMEHeaderKey h = Some [v]) ->
      signed = (gcsutil.ignoreHeaders_loop headers hdr).2 ->
      final = hdr).
Proof.
  intros Hnd Hrange final. subst final. unfold gcsutil.ranges in Hrange.
  set (ignored := (gcsutil.ignoreHeaders_loop headers hdr).1) in *.
  assert (Hkeys : forall k, k ∈ entries.*1 -> k ∈ headers).
  { intros k Hk. apply list_elem_of_fmap in Hk as ([k' v] & -> & Hk).
    rewrite Hrange in Hk. apply elem_of_map_to_list in Hk. cbn [fst].
    assert (Hs : is_Some (ignored !! k')) by (rewrite Hk; eauto).
    apply ignoreHeaders_loop_dom in Hs as [Hs|Hs]; [assumption|].
    cbn in Hs. rewrite lookup_empty in Hs. destruct Hs; discriminate. }
  assert (Hnd' : NoDup (http.CanonicalMIMEHeaderKey <$> entries.*1)).
  { apply NoDup_fmap_2_strong.
    - intros x y Hx Hy. apply (NoDup_fmap_inj_on _ headers); auto.
    - rewrite Hrange. apply NoDup_fst_map_to_list. }
  assert (Hentry : forall h, h ∈ headers ->
                     (h, http.Header_Get hdr h) ∈ entries).
  { intros h Hh. rewrite Hrange. apply elem_of_map_to_list.
    destruct (list_elem_of_split _ _ Hh) as (l1 & l2 & Heq).
    rewrite Heq in Hnd. rewrite fmap_app in Hnd. cbn [fmap list_fmap] in Hnd.
    apply NoDup_app in Hnd as (_ & Hl1 & Hnd).
    apply NoDup_cons in Hnd as [Hl2 _].
    subst ignored. rewrite Heq. rewrite ignoreHeaders_loop_entry.
    - case_decide as Hc; [|reflexivity]. exfalso.
      apply (Hl1 _ Hc). left.
    - intros Hin. apply Hl2. apply list_elem_of_fmap_2. assumption. }
  assert (Hval : forall h, h ∈ headers ->
                   gcsutil.restoreIgnored_loop entries signed
                   !! http.CanonicalMIMEHeaderKey h
                   = Some [http.Header_Get hdr h]).
  { intros h Hh. apply restoreIgnored_loop_entry; auto. }
  assert (Hother : forall k, k ∉ http.CanonicalMIMEHeaderKey <$> headers ->
                     gcsutil.restoreIgnored_loop entries signed !! k
                     = signed !! k).
  { intros k Hk. apply restoreIgnored_loop_other. intros Hin. apply Hk.
    apply list_elem_of_fmap in Hin as (k' & -> & Hk').
    apply list_elem_of_fmap_2. apply Hkeys. assumption. }
  split; [|split; [|split]].
  - intros h Hh. unfold http.Header_Values. rewrite (Hval h Hh). reflexivity.
  - intros h Hh Hnone. unfold http.Header_Values. rewrite (Hval h Hh).
    rewrite (Header_Get_lookup hdr h Hnone). reflexivity.
  - exact Hother.
  - intros Hone ->. apply map_eq. intros k.
    destruct (decide (k ∈ http.CanonicalMIMEHeaderKey <$> headers)) as [Hk|Hk].
    + apply list_elem_of_fmap in Hk as (h & -> & Hh).
      rewrite (Hval h Hh). destruct (Hone h Hh) as (v & Hv).
      rewrite Hv. unfold http.Header_Get. rewrite Hv. reflexivity.
    + rewrite (Hother k Hk). unfold gcsutil.ignoreHeaders_loop.
      rewrite ignoreHeaders_loop_header. case_decide; [contradiction|reflexivity].
Qed.

(** When a field is listed under two spellings, what [restoreIgnored] puts
    back depends on the order in which Go ranges over the map: the value of
    the request is kept under the first spelling and the empty string under
    the second, and the one that is set last stays.  Both orders are
    possible. *)
Theorem restoreIgnored_two_spellings (h1 h2 v : string) (vs : list string)
    (hdr signed : http.Header) :
  h1 <> h2 ->
  http.CanonicalMIMEHeaderKey h1 = http.CanonicalMIMEHeaderKey h2 ->
  hdr !! http.CanonicalMIMEHeaderKey h1 = Some (v :: vs) ->
  let ignored := (gcsutil.ignoreHeaders_loop [h1; h2] hdr).1 in
  ignored = <[h2 := ""]> (<[h1 := v]> ∅)
  /\ gcsutil.ranges ignored [(h1, v); (h2, "")]
  /\ gcsutil.ranges ignored [(h2, ""); (h1, v)]
  /\ http.Header_Values
       (gcsutil.restoreIgnored_loop [(h1, v); (h2, "")] signed) h1 = [""]
  /\ http.Header_Values
       (gcsutil.restoreIgnored_loop [(h2, ""); (h1, v)] signed) h1 = [v].
Proof.
  intros Hne Hcanon Hv ignored.
  assert (Hig : ignored = <[h2 := ""]> (<[h1 := v]> ∅)).
  { subst ignored. unfold gcsutil.ignoreHeaders_loop. cbn [foldl].
    unfold gcsutil.ignoreHeaders_step. cbn [fst snd]. f_equal.
    - unfold http.Header_Get, http.Header_Del.
      rewrite <- Hcanon, lookup_delete_eq. reflexivity.
    - unfold http.Header_Get. rewrite Hv. reflexivity. }
  assert (Hperm : [(h2, ""); (h1, v)] ≡ₚ map_to_list ignored).
  { rewrite Hig. rewrite map_to_list_insert.
    - rewrite map_to_list_insert by apply lookup_empty.
      rewrite map_to_list_empty. reflexivity.
    - rewrite lookup_insert_ne by assumption. apply lookup_empty. }
  split; [exact Hig|]. unfold gcsutil.ranges.
  split; [rewrite <- Hperm; apply Permutation_swap|].
  split; [exact Hperm|].
  unfold gcsutil.restoreIgnored_loop, http.Header_Values, http.Header_Set.
  cbn [foldl]. split.
  - rewrite <- Hcanon. rewrite lookup_insert_eq. reflexivity.
  - rewrite lookup_insert_eq. reflexivity.
Qed.

(** Without the stack value in the context [restoreIgnored] ranges over
    the nil map: the request goes on with its header as it is, and that is
    no error.  A request of another type is refused whatever the next
    handler is, which is not called. *)
Theorem restoreIgnored_without_stack_value (R : Type)
    (range : gmap string string -> list (string * string))
    (next : gcsutil.StackValue -> gcsutil.FinalizeRequest -> R)
    (hdr : http.Header) :
  (forall m, gcsutil.ranges m (range m)) ->
  gcsutil.restoreIgnored range next None (gcsutil.SmithyRequest hdr)
  = gcsutil.Next (next None (gcsutil.SmithyRequest hdr))
  /\ gcsutil.restoreIgnored range next (Some ∅) (gcsutil.SmithyRequest hdr)
     = gcsutil.Next (next (Some ∅) (gcsutil.SmithyRequest hdr))
  /\ (forall ctx t next',
        gcsutil.restoreIgnored range next ctx (gcsutil.OtherRequest t)
        = gcsutil.restoreIgnored range next' ctx (gcsutil.OtherRequest t)).
Proof.
  intros Hrange. cbv [gcsutil.restoreIgnored default from_option id].
  pose proof (Hrange ∅) as Hempty. unfold gcsutil.ranges in Hempty.
  rewrite map_to_list_empty in Hempty. apply Permutation_nil_r in Hempty.
  rewrite Hempty. repeat split; intros; reflexivity.
Qed.

(** * Cache paths *)

Lemma append_assoc (a b c : string) :
  ((a ++ b) ++ c)%string = (a ++ (b ++ c))%string.
Proof.
  induction a as [|x a IH]; [reflexivity|].
  change (String x ((a ++ b) ++ c) = String x (a ++ (b ++ c)))%string.
  f_equal. exact IH.
Qed.

Lemma append_inv_head (a b c : string) :
  (a ++ b)%string = (a ++ c)%string -> b = c.
Proof.
  induction a as [|x a IH]; intros Heq; [exact Heq|].
  apply IH. change (String x (a ++ b) = String x (a ++ c))%string in Heq.
  congruence.
Qed.

Lemma append_length (a b : string) :
  String.length (a ++ b)%string = (String.length a + String.length b)%nat.
Proof.
  induction a as [|x a IH]; [reflexivity|].
  change (S (String.length (a ++ b)%string)
          = S (String.length a + String.length b)).
  f_equal. exact IH.
Qed.

Lemma Split_cons (s : string) (sep : ascii) :
  exists x xs, strings.Split s sep = x :: xs.
Proof.
  induction s as [|c s (x & xs & IH)]; cbn [strings.Split]; [eauto|].
  destruct (Ascii.eqb c sep); [eauto|]. rewrite IH. eauto.
Qed.

Lemma Split_app (a b : string) (sep : ascii) :
  strings.Split (a ++ String sep b) sep
  = strings.Split a sep ++ strings.Split b sep.
Proof.
  induction a as [|c a IH].
  - change (strings.Split (String sep b) sep = "" :: strings.Split b sep).
    cbn [strings.Split]. rewrite Ascii.eqb_refl. reflexivity.
  - change (strings.Split (String c (a ++ String sep b)) sep
            = strings.Split (String c a) sep ++ strings.Split b sep).
    cbn [strings.Split]. rewrite IH.
    destruct (Ascii.eqb c sep); [reflexivity|].
    destruct (Split_cons a sep) as (x & xs & ->). reflexivity.
Qed.

Lemma Clean_step_no_dots (rt : bool) (elems out : list string) :
  forallb (fun e => negb (String.eqb e ".") && negb (String.eqb e ".."))
          elems = true ->
  foldl (path.Clean_step rt) out elems
  = rev (List.filter (fun e => negb (String.eqb e "")) elems) ++ out.
Proof.
  revert out. induction elems as [|e elems IH]; intros out Hall;
    cbn [foldl forallb List.filter] in *; [reflexivity|].
  apply andb_true_iff in Hall as [He Hall].
  apply andb_true_iff in He as [H1 H2].
  apply negb_true_iff in H1, H2.
  rewrite (IH _ Hall). unfold path.Clean_step. rewrite H1, H2, orb_false_r.
  destruct (String.eqb e ""); cbn [negb]; [reflexivity|].
  cbn [rev]. rewrite <- app_assoc. reflexivity.
Qed.

(** A string of lower-case hex digits is one name element, and not a dot
    element. *)
Lemma lower_hex_name (h : string) :
  forallb is_lower_hex (list_ascii_of_string h) = true ->
  strings.Split h "/" = [h]
  /\ String.eqb h "." = false /\ String.eqb h ".." = false.
Proof.
  intros Hhex. split.
  - apply Split_no_sep. rewrite forallb_forall in *. intros c Hc.
    specialize (Hhex c Hc). revert Hhex.
    destruct c as [[] [] [] [] [] [] [] []]; vm_compute; congruence.
  - destruct h as [|c h]; [split; reflexivity|].
    cbn [list_ascii_of_string forallb] in Hhex.
    apply andb_true_iff in Hhex as [Hc _]. revert Hc.
    destruct c as [[] [] [] [] [] [] [] []]; vm_compute; try congruence;
      intros _; split; reflexivity.
Qed.

Lemma substring_prefix_chars (n : nat) (h : string) (P : ascii -> bool) :
  forallb P (list_ascii_of_string h) = true ->
  forallb P (list_ascii_of_string (substring 0 n h)) = true.
Proof.
  revert h. induction n as [|n IH]; intros h Hall.
  - destruct h; reflexivity.
  - destruct h as [|c h]; [reflexivity|].
    cbn [list_ascii_of_string forallb substring] in *.
    apply andb_true_iff in Hall as [Hc Hall]. rewrite Hc. apply IH, Hall.
Qed.

Lemma substring_2_length (h : string) :
  (2 <= String.length h)%nat -> String.length (substring 0 2 h) = 2%nat.
Proof.
  destruct h as [|a [|b h]]; cbn [String.length]; try lia.
  intros _. cbn [substring]. destruct h; reflexivity.
Qed.

Lemma joinSlash_app (l : list string) (x : string) (r : list string) :
  path.joinSlash (l ++ x :: r)
  = (fold_right (fun e acc => e ++ "/" ++ acc) "" l
     ++ path.joinSlash (x :: r))%string.
Proof.
  induction l as [|e l IH]; [reflexivity|].
  change (path.joinSlash (e :: (l ++ x :: r))
          = ((e ++ "/" ++ fold_right (fun e acc => e ++ "/" ++ acc) "" l)
             ++ path.joinSlash (x :: r))%string).
  destruct (l ++ x :: r) as [|y t] eqn:Hl; [destruct l; discriminate|].
  change (path.joinSlash (e :: y :: t))
    with (e ++ "/" ++ path.joinSlash (y :: t))%string.
  rewrite IH, !append_assoc. reflexivity.
Qed.

Lemma layout_not_empty (p hash : string) : String.eqb (layout p hash) "" = false.
Proof.
  apply String.eqb_neq. unfold layout. rewrite joinSlash_app.
  intros Heq. apply (f_equal String.length) in Heq.
  rewrite !append_length in Heq.
  change (path.joinSlash [substring 0 2 hash; hash])
    with (substring 0 2 hash ++ "/" ++ hash)%string in Heq.
  rewrite !append_length in Heq. cbn [String.length] in Heq. lia.
Qed.

Lemma Clean_names (buf : string) (elems : list string) :
  buf <> "" ->
  strings.Split buf "/" = elems ->
  forallb (fun e => negb (String.eqb e ".") && negb (String.eqb e ".."))
          elems = true ->
  let s := ((if rooted buf then "/" else "")
            ++ path.joinSlash
                 (List.filter (fun e => negb (String.eqb e "")) elems))%string in
  String.eqb s "" = false ->
  path.Clean buf = s.
Proof.
  intros Hbuf Hsplit Hdots s Hs. subst s.
  destruct buf as [|c buf]; [congruence|].
  unfold path.Clean. rewrite Hsplit, (Clean_step_no_dots _ _ _ Hdots).
  rewrite app_nil_r, rev_involutive. cbn [rooted] in *. rewrite Hs. reflexivity.
Qed.

Lemma Join_buf_three (p hh hash : string) :
  hh <> "" ->
  path.Join_buf "" [p; hh; hash]
  = (if String.eqb p "" then hh ++ String "/" hash
     else p ++ String "/" (hh ++ String "/" hash))%string.
Proof.
  intros Hhh. destruct hh as [|a hh]; [congruence|].
  destruct p as [|c p]; simpl.
  - rewrite append_assoc. reflexivity.
  - rewrite !append_assoc. reflexivity.
Qed.

Lemma Join_layout (p hash : string) :
  forallb is_lower_hex (list_ascii_of_string hash) = true ->
  (2 <= String.length hash)%nat ->
  no_dots p = true ->
  path.Join [p; substring 0 2 hash; hash] = layout p hash.
Proof.
  intros Hhex Hlen Hdots.
  pose proof (layout_not_empty p hash) as Hne. unfold layout in *.
  pose proof (substring_2_length hash Hlen) as Hhh.
  pose proof (substring_prefix_chars 2 hash _ Hhex) as Hhhex.
  destruct (lower_hex_name _ Hhex) as (Hs1 & Hd1 & Hd2).
  destruct (lower_hex_name _ Hhhex) as (Hs2 & Hd3 & Hd4).
  set (hh := substring 0 2 hash) in *.
  assert (Hhash : String.eqb hash "" = false).
  { destruct hash; [cbn in Hlen; lia|reflexivity]. }
  assert (Hhh' : String.eqb hh "" = false).
  { destruct hh; [discriminate|reflexivity]. }
  assert (Hfilter : List.filter (fun e => negb (String.eqb e "")) [hh; hash]
                    = [hh; hash]).
  { cbn [List.filter]. rewrite Hhh', Hhash. reflexivity. }
  unfold path.Join. cbn [forallb]. rewrite Hhash, !andb_false_r.
  rewrite Join_buf_three by (apply String.eqb_neq; exact Hhh').
  destruct p as [|c p]; cbn [String.eqb].
  - change (names "" ++ [hh; hash]) with [hh; hash] in *.
    assert (Hroot : rooted (hh ++ String "/" hash) = rooted "").
    { destruct hh as [|a hh0]; [discriminate|].
      cbn [list_ascii_of_string forallb] in Hhhex.
      apply andb_true_iff in Hhhex as [Ha _]. cbn [String.append rooted].
      revert Ha. destruct a as [[] [] [] [] [] [] [] []]; vm_compute; congruence. }
    rewrite (Clean_names _ [hh; hash]); rewrite ?Hfilter, ?Hroot.
    + reflexivity.
    + destruct hh; discriminate.
    + rewrite Split_app, Hs1, Hs2. reflexivity.
    + cbn [forallb]. rewrite Hd1, Hd2, Hd3, Hd4. reflexivity.
    + exact Hne.
  - assert (Hroot : rooted (String c p ++ String "/" (hh ++ String "/" hash))
                    = rooted (String c p)) by reflexivity.
    unfold names in *.
    rewrite (Clean_names _ (strings.Split (String c p) "/" ++ [hh; hash]));
      rewrite ?List.filter_app, ?Hfilter, ?Hroot.
    + reflexivity.
    + discriminate.
    + rewrite !Split_app, Hs1, Hs2. reflexivity.
    + rewrite forallb_app. unfold no_dots in Hdots. rewrite Hdots.
      cbn [forallb]. rewrite Hd1, Hd2, Hd3, Hd4. reflexivity.
    + exact Hne.
Qed.

Lemma Split_fold (p : string) :
  fold_right (fun e acc => e ++ "/" ++ acc)%string "" (strings.Split p "/")
  = (p ++ "/")%string.
Proof.
  induction p as [|c p IH]; [reflexivity|]. cbn [strings.Split].
  destruct (Ascii.eqb_spec c "/") as [->|Hc].
  - cbn [fold_right]. rewrite IH. reflexivity.
  - destruct (Split_cons p "/") as (x & xs & Hx). rewrite Hx in *.
    cbn [fold_right] in *.
    change (String c (x ++ "/" ++ fold_right (fun e acc => e ++ "/" ++ acc) "" xs)
            = String c (p ++ "/"))%string.
    f_equal. exact IH.
Qed.

Lemma filter_all {A : Type} (f : A -> bool) (l : list A) :
  forallb f l = true -> List.filter f l = l.
Proof.
  induction l as [|a l IH]; cbn [forallb List.filter]; [reflexivity|].
  intros [Ha Hl]%andb_true_iff. rewrite Ha, (IH Hl). reflexivity.
Qed.

(** The layout under a directory whose name elements are all there. *)
Lemma layout_plain (p hash : string) :
  forallb (fun e => negb (String.eqb e "")) (strings.Split p "/") = true ->
  layout p hash = (p ++ "/" ++ substring 0 2 hash ++ "/" ++ hash)%string.
Proof.
  intros Hall. unfold layout, names. rewrite (filter_all _ _ Hall).
  rewrite joinSlash_app, Split_fold.
  assert (Hroot : rooted p = false).
  { destruct p as [|c p]; [reflexivity|]. cbn [rooted].
    destruct (Ascii.eqb_spec c "/") as [->|Hc]; [|reflexivity].
    cbn [strings.Split Ascii.eqb Bool.eqb forallb String.eqb negb andb] in Hall.
    discriminate. }
  rewrite Hroot. cbn [String.append]. rewrite append_assoc. reflexivity.
Qed.

Lemma layout_rooted (q hash : string) :
  forallb (fun e => negb (String.eqb e "")) (strings.Split q "/") = true ->
  layout (String "/" q) hash
  = (String "/" q ++ "/" ++ substring 0 2 hash ++ "/" ++ hash)%string.
Proof.
  intros Hall. unfold layout, names. cbn [rooted strings.Split Ascii.eqb Bool.eqb].
  cbn [List.filter String.eqb negb]. rewrite (filter_all _ _ Hall).
  rewrite joinSlash_app, Split_fold. rewrite append_assoc. reflexivity.
Qed.

(** Where the entries go.  For a hash of at least two lower-case hex digits
    and a directory or key prefix without [.] and [..] elements, the path
    is the non-empty name elements of the prefix, then the first two digits
    of the hash, then the hash, joined by single slashes, with a slash in
    front when the prefix has one.  Under an empty prefix that is the two
    digits and the hash; under a prefix that is clean already the three are
    joined as they are. *)
Theorem cache_path_layout (s : Server) (hash : string) :
  forallb is_lower_hex (list_ascii_of_string hash) = true ->
  (2 <= String.length hash)%nat ->
  let hh := substring 0 2 hash in
  (no_dots (KeyPrefix s) = true ->
   makeKey s hash = Done (layout (KeyPrefix s) hash))
  /\ (no_dots (Local s) = true ->
      makePath s hash = Done (layout (Local s) hash))
  /\ layout "" hash = (hh ++ "/" ++ hash)%string
  /\ (forall p,
        forallb (fun e => negb (String.eqb e "")) (strings.Split p "/") = true ->
        layout p hash = (p ++ "/" ++ hh ++ "/" ++ hash)%string)
  /\ (forall q,
        forallb (fun e => negb (String.eqb e "")) (strings.Split q "/") = true ->
        layout (String "/" q) hash
        = (String "/" q ++ "/" ++ hh ++ "/" ++ hash)%string).
Proof.
  intros Hhex Hlen hh. subst hh.
  assert (Hslice : slice2 hash = Done (substring 0 2 hash)).
  { unfold slice2. destruct (Nat.ltb_spec (String.length hash) 2); [lia|].
    reflexivity. }
  unfold makeKey, makePath. rewrite Hslice.
  split; [|split; [|split; [|split]]].
  - intros Hdots. rewrite Join_layout by assumption. reflexivity.
  - intros Hdots. rewrite Join_layout by assumption. reflexivity.
  - reflexivity.
  - intros p Hp. apply layout_plain, Hp.
  - intros q Hq. apply layout_rooted, Hq.
Qed.

Lemma append_inv_length (a a' b b' : string) :
  String.length a = String.length a' ->
  (a ++ b)%string = (a' ++ b')%string -> b = b'.
Proof.
  revert a'. induction a as [|x a IH]; intros [|x' a'] Hlen Heq;
    try discriminate; [exact Heq|].
  cbn [String.append] in Heq. injection Heq as _ Heq.
  apply (IH a'); [cbn in Hlen; lia|exact Heq].
Qed.

Lemma layout_injective (p h1 h2 : string) :
  (2 <= String.length h1)%nat -> (2 <= String.length h2)%nat ->
  layout p h1 = layout p h2 -> h1 = h2.
Proof.
  intros H1 H2 Heq. unfold layout in Heq.
  apply append_inv_head in Heq. rewrite !joinSlash_app in Heq.
  apply append_inv_head in Heq.
  change (substring 0 2 h1 ++ "/" ++ h1 = substring 0 2 h2 ++ "/" ++ h2)%string
    in Heq.
  apply append_inv_length in Heq.
  - exact (append_inv_head _ _ _ Heq).
  - rewrite !substring_2_length by assumption. reflexivity.
Qed.

(** Two hashes have the same key under a prefix only when they are the
    same hash; two prefixes that differ in a closing slash give the same
    keys. *)
Theorem cache_path_collisions (s : Server) (h1 h2 : string) :
  forallb is_lower_hex (list_ascii_of_string h1) = true ->
  forallb is_lower_hex (list_ascii_of_string h2) = true ->
  (2 <= String.length h1)%nat ->
  (2 <= String.length h2)%nat ->
  no_dots (KeyPrefix s) = true ->
  (makeKey s h1 = makeKey s h2 -> h1 = h2)
  /\ (forall s', KeyPrefix s' = (KeyPrefix s ++ "/")%string ->
        KeyPrefix s <> "" ->
        makeKey s' h1 = makeKey s h1).
Proof.
  intros Hhex1 Hhex2 Hlen1 Hlen2 Hdots.
  assert (Hslice : forall h, (2 <= String.length h)%nat ->
                     slice2 h = Done (substring 0 2 h)).
  { intros h Hh. unfold slice2.
    destruct (Nat.ltb_spec (String.length h) 2); [lia|]. reflexivity. }
  unfold makeKey. rewrite !Hslice by assumption. split.
  - rewrite !Join_layout by assumption. intros [= Heq].
    exact (layout_injective _ _ _ Hlen1 Hlen2 Heq).
  - intros s' Hs' Hne. rewrite Hs'.
    assert (Hsplit : strings.Split (KeyPrefix s ++ "/") "/"
                     = strings.Split (KeyPrefix s) "/" ++ [""]).
    { change "/"%string with (String "/" "") at 1. apply Split_app. }
    assert (Hdots' : no_dots (KeyPrefix s ++ "/") = true).
    { unfold no_dots in *. rewrite Hsplit, forallb_app, Hdots. reflexivity. }
    rewrite !Join_layout by assumption. f_equal. unfold layout, names.
    rewrite Hsplit, List.filter_app. cbn [List.filter String.eqb negb].
    rewrite app_nil_r.
    destruct (KeyPrefix s) as [|c p]; [congruence|]. reflexivity.
Qed.

Section PathFacts.

Context `{lib : Library}.

(** Making a path or a key panics on a hash of fewer than two bytes and on
    no other; the hash of a request URL is long enough as soon as the digest
    has a byte. *)
Theorem cache_path_panics (s : Server) (hash : string) :
  (makeKey s hash = Panicked <-> (String.length hash < 2)%nat)
  /\ (makePath s hash = Panicked <-> (String.length hash < 2)%nat)
  /\ (forall u, sha256_Sum256 (URL_String u) <> "" ->
        makeKey s (hashRequestURL u) <> Panicked
        /\ makePath s (hashRequestURL u) <> Panicked).
Proof.
  assert (Hslice : forall h, slice2 h = Panicked <-> (String.length h < 2)%nat).
  { intros h. unfold slice2.
    destruct (Nat.ltb_spec (String.length h) 2); split;
      intros; try discriminate; try reflexivity; lia. }
  assert (Hkey : forall h, makeKey s h = Panicked <-> slice2 h = Panicked).
  { intros h. unfold makeKey. destruct (slice2 h); split; intros;
      try discriminate; reflexivity. }
  assert (Hpath : forall h, makePath s h = Panicked <-> slice2 h = Panicked).
  { intros h. unfold makePath. destruct (slice2 h); split; intros;
      try discriminate; reflexivity. }
  split; [rewrite Hkey; apply Hslice|].
  split; [rewrite Hpath; apply Hslice|].
  intros u Hu.
  assert (Hlen : (2 <= String.length (hashRequestURL u))%nat).
  { unfold hashRequestURL. rewrite hexString_length.
    destruct (sha256_Sum256 (URL_String u)); [congruence|]. cbn. lia. }
  rewrite Hkey, Hpath, !Hslice. lia.
Qed.

End PathFacts.

(** * The further properties at examples *)

(** The tier order at a GET for a target that no tier has. *)
Lemma lookups_in_tier_order_witness :
  let p := demo_ServeHTTP demo_server newWriter demo_get in
  let run := exec handle p (demo_world false) in
  let hash := hashRequestURL (RURL demo_get) in
  let misses := [(memoryTier, hash, false); (localTier, hash, false);
                 (remoteTier, hash, false)] in
  Run p run.2 run.1.1
  /\ (round_trips run.2 <> [] ->
      lookups_of run.2 = [] \/ lookups_of run.2 = misses).
Proof.
  intros p run hash misses.
  pose proof (exec_Run handle p (demo_world false)) as Hrun.
  split; [exact Hrun|].
  pose proof (lookups_in_tier_order demo_server newWriter demo_get _ _ Hrun)
    as Hthm.
  cbv zeta in Hthm. destruct Hthm as (_ & _ & Hrt & _). exact Hrt.
Defined.

Lemma cache_operations_use_request_hash_witness :
  let p := demo_ServeHTTP demo_server newWriter demo_get in
  let run := exec handle p (demo_world false) in
  Run p run.2 run.1.1
  /\ Forall (fun key => key = hashRequestURL (RURL demo_get)) (cache_keys run.2).
Proof.
  intros p run.
  pose proof (exec_Run handle p (demo_world false)) as Hrun.
  split; [exact Hrun|].
  exact (cache_operations_use_request_hash demo_server newWriter demo_get
           _ _ Hrun).
Defined.

Lemma counters_per_request_witness :
  let p := demo_ServeHTTP demo_server newWriter demo_get in
  let run := exec handle p (demo_world false) in
  Run p run.2 run.1.1
  /\ count reqReceived run.2 = 1
  /\ count rspSave run.2 = Z.of_nat (length (pushes_of run.2)).
Proof.
  intros p run.
  pose proof (exec_Run handle p (demo_world false)) as Hrun.
  split; [exact Hrun|].
  pose proof (counters_per_request demo_server newWriter demo_get _ _ Hrun)
    as (Hrecv & _ & _ & _ & Hsave & _).
  split; [exact Hrecv|exact Hsave].
Defined.

Lemma stores_per_request_witness :
  let p := demo_ServeHTTP demo_server newWriter demo_get in
  let run := exec handle p (demo_world false) in
  Run p run.2 run.1.1
  /\ (length (memory_stores run.2) + length (local_stores run.2) <= 1)%nat
  /\ (length (pushes_of run.2) <= length (local_stores run.2))%nat.
Proof.
  intros p run.
  pose proof (exec_Run handle p (demo_world false)) as Hrun.
  split; [exact Hrun|].
  pose proof (stores_per_request demo_server newWriter demo_get _ _ Hrun)
    as (Hone & Hpush & _).
  split; [exact Hone|exact Hpush].
Defined.

(** The same request at a server without a logging function. *)
Lemma logging_follows_configuration_witness :
  let p := demo_ServeHTTP demo_quiet_server newWriter demo_get in
  let run := exec handle p (demo_world false) in
  Run p run.2 run.1.1 /\ logs_of run.2 = [].
Proof.
  intros p run.
  pose proof (exec_Run handle p (demo_world false)) as Hrun.
  split; [exact Hrun|].
  exact (proj1 (logging_follows_configuration demo_quiet_server newWriter
                  demo_get _ _ Hrun) eq_refl).
Defined.

Lemma origin_requests_go_to_targets_witness :
  let p := demo_ServeHTTP demo_server newWriter demo_get in
  let run := exec handle p (demo_world false) in
  Run p run.2 run.1.1
  /\ (length (round_trips run.2) <= 1)%nat
  /\ Forall (fun o => List.In (Host o) (Targets demo_server)
                      /\ Host o = Host demo_get
                      /\ UHost (RURL o) = Host demo_get
                      /\ Scheme (RURL o) <> ""
                      /\ Method o = Method demo_get)
            (round_trips run.2).
Proof.
  intros p run.
  pose proof (exec_Run handle p (demo_world false)) as Hrun.
  split; [exact Hrun|].
  exact (origin_requests_go_to_targets demo_server newWriter demo_get
           _ _ Hrun).
Defined.

(** A hit in memory for the GET of the examples. *)
Lemma fast_tier_hit_witness :
  let hash := hashRequestURL (RURL demo_get) in
  hostMatchesTarget (Host demo_get) (Targets demo_server) = true
  /\ canCacheRequest demo_get = true
  /\ Run (demo_ServeHTTP demo_server newWriter demo_get)
         (memory_hit_trace demo_server demo_get "hello" demo_entry_header)
         (Done (writeCachedResponse newWriter
                  (setXCacheInfo demo_entry_header "hit, memory" hash)
                  "hello")).
Proof.
  intros hash.
  assert (H1 : hostMatchesTarget (Host demo_get) (Targets demo_server) = true)
    by (vm_compute; reflexivity).
  assert (H2 : canCacheRequest demo_get = true) by (vm_compute; reflexivity).
  pose proof (fast_tier_hit demo_server demo_get "hello" demo_entry_header
                H1 H2) as Hthm.
  cbv zeta in Hthm. destruct Hthm as (Hrun & _).
  split; [exact H1|]. split; [exact H2|exact (Hrun newWriter)].
Defined.

(** The origin answers the GET of the examples with a max-age of one
    minute. *)
Lemma volatile_response_kept_in_memory_witness :
  let hash := hashRequestURL (RURL demo_get) in
  let hdr := setXCacheInfo (RspHeader demo_volatile)
               "fetch, cached, volatile" hash in
  let tr := volatile_trace demo_server demo_get (demo_out demo_get)
              demo_volatile 60000000000 "hello" "hello" in
  hostMatchesTarget (Host demo_get) (Targets demo_server) = true
  /\ canCacheRequest demo_get = true
  /\ rewriteRequest (mkProxyRequest demo_get demo_get)
     = Done (mkProxyRequest demo_get (demo_out demo_get))
  /\ canCacheResponse demo_volatile = false
  /\ canMemoryCache demo_volatile = (60000000000, true)
  /\ Run (demo_ServeHTTP demo_server newWriter demo_get) tr
         (Done (proxied newWriter (setRspHeader demo_volatile hdr) "hello"))
  /\ memory_stores tr = [(hash, 60000000000, hdr, "hello")].
Proof.
  intros hash hdr tr.
  assert (H1 : hostMatchesTarget (Host demo_get) (Targets demo_server) = true)
    by (vm_compute; reflexivity).
  assert (H2 : canCacheRequest demo_get = true) by (vm_compute; reflexivity).
  assert (H3 : rewriteRequest (mkProxyRequest demo_get demo_get)
               = Done (mkProxyRequest demo_get (demo_out demo_get)))
    by (vm_compute; reflexivity).
  assert (H4 : canCacheResponse demo_volatile = false)
    by (vm_compute; reflexivity).
  assert (H5 : canMemoryCache demo_volatile = (60000000000, true))
    by (vm_compute; reflexivity).
  pose proof (volatile_response_kept_in_memory demo_server newWriter demo_get
                _ demo_volatile _ "hello" "hello" H1 H2 H3 H4 H5) as Hthm.
  cbv zeta in Hthm. destruct Hthm as (Hrun & _ & Hmem & _).
  split; [exact H1|]. split; [exact H2|]. split; [exact H3|].
  split; [exact H4|]. split; [exact H5|]. split; [exact Hrun|exact Hmem].
Defined.

(** The origin answers the GET of the examples without Cache-Control. *)
Lemma uncacheable_response_not_stored_witness :
  let tr := uncached_trace demo_server demo_get (demo_out demo_get)
              demo_plain "hello" "hello" in
  hostMatchesTarget (Host demo_get) (Targets demo_server) = true
  /\ canCacheRequest demo_get = true
  /\ rewriteRequest (mkProxyRequest demo_get demo_get)
     = Done (mkProxyRequest demo_get (demo_out demo_get))
  /\ canCacheResponse demo_plain = false
  /\ (canMemoryCache demo_plain).2 = false
  /\ none_of (@is_cache_write) tr = true
  /\ adds_of tr = [(reqReceived, 1); (reqLocalMiss, 1); (reqFaultMiss, 1);
                   (reqForward, 1); (rspNotCached, 1)].
Proof.
  intros tr.
  assert (H1 : hostMatchesTarget (Host demo_get) (Targets demo_server) = true)
    by (vm_compute; reflexivity).
  assert (H2 : canCacheRequest demo_get = true) by (vm_compute; reflexivity).
  assert (H3 : rewriteRequest (mkProxyRequest demo_get demo_get)
               = Done (mkProxyRequest demo_get (demo_out demo_get)))
    by (vm_compute; reflexivity).
  assert (H4 : canCacheResponse demo_plain = false)
    by (vm_compute; reflexivity).
  assert (H5 : (canMemoryCache demo_plain).2 = false)
    by (vm_compute; reflexivity).
  pose proof (uncacheable_response_not_stored demo_server newWriter demo_get
                _ demo_plain "hello" "hello" H1 H2 H3 H4 H5) as Hthm.
  cbv zeta in Hthm. destruct Hthm as (_ & _ & Hnone & Hadds).
  split; [exact H1|]. split; [exact H2|]. split; [exact H3|].
  split; [exact H4|]. split; [exact H5|]. split; [exact Hnone|exact Hadds].
Defined.

(** The origin does not answer the GET of the examples. *)
Lemma origin_failure_answers_502_witness :
  hostMatchesTarget (Host demo_get) (Targets demo_server) = true
  /\ rewriteRequest (mkProxyRequest demo_get demo_get)
     = Done (mkProxyRequest demo_get (demo_out demo_get))
  /\ Run (demo_ServeHTTP demo_server newWriter demo_get)
         (forward_trace demo_server demo_get
          ++ [obs (ERoundTrip (demo_out demo_get)) None])
         (Done (writer.WriteHeader newWriter 502))
  /\ wStatus (writer.WriteHeader newWriter 502) = Some 502.
Proof.
  assert (H1 : hostMatchesTarget (Host demo_get) (Targets demo_server) = true)
    by (vm_compute; reflexivity).
  assert (H3 : rewriteRequest (mkProxyRequest demo_get demo_get)
               = Done (mkProxyRequest demo_get (demo_out demo_get)))
    by (vm_compute; reflexivity).
  pose proof (origin_failure_answers_502 demo_server newWriter demo_get
                _ H1 H3) as Hthm.
  cbv zeta in Hthm. destruct Hthm as (Hrun & _ & _ & _ & _ & _ & Hstatus).
  split; [exact H1|]. split; [exact H3|]. split; [exact Hrun|].
  exact (Hstatus eq_refl).
Defined.


(** [Cache-Control: max-age=60]. *)
Lemma max_age_alone_is_volatile_witness :
  http.Header_Get (RspHeader demo_volatile) "Cache-Control"
  = ("max-age=" ++ "60")%string
  /\ strconv.Atoi "60" = Some 60
  /\ -9223372036 <= 60 <= 9223372036
  /\ canCacheResponse demo_volatile = false
  /\ canMemoryCache demo_volatile = (60 * 1000000000, true).
Proof.
  assert (H1 : http.Header_Get (RspHeader demo_volatile) "Cache-Control"
               = ("max-age=" ++ "60")%string) by (vm_compute; reflexivity).
  assert (H2 : strconv.Atoi "60" = Some 60) by (vm_compute; reflexivity).
  assert (H3 : -9223372036 <= 60 <= 9223372036) by lia.
  split; [exact H1|]. split; [exact H2|]. split; [exact H3|].
  exact (max_age_alone_is_volatile demo_volatile "60" 60 H1 H2 H3).
Defined.

(** [Cache-Control: must-revalidate, max-age=5184001]: one second more
    than sixty days. *)
Lemma must_revalidate_max_age_threshold_witness :
  http.Header_Get (RspHeader demo_revalidate) "Cache-Control"
  = ("must-revalidate, max-age=" ++ "5184001")%string
  /\ strconv.Atoi "5184001" = Some 5184001
  /\ -9223372036 <= 5184001 <= 9223372036
  /\ canCacheResponse demo_revalidate = true.
Proof.
  assert (H1 : http.Header_Get (RspHeader demo_revalidate) "Cache-Control"
               = ("must-revalidate, max-age=" ++ "5184001")%string)
    by (vm_compute; reflexivity).
  assert (H2 : strconv.Atoi "5184001" = Some 5184001)
    by (vm_compute; reflexivity).
  assert (H3 : -9223372036 <= 5184001 <= 9223372036) by lia.
  split; [exact H1|]. split; [exact H2|]. split; [exact H3|].
  exact (proj1 (must_revalidate_max_age_threshold demo_revalidate "5184001"
                  5184001 H1 H2 H3)).
Defined.

(** [Cache-Control: max-age=9223372037]. *)
Lemma max_age_beyond_int64_not_cached_witness :
  http.Header_Get (RspHeader demo_overflow) "Cache-Control"
  = ("max-age=" ++ "9223372037")%string
  /\ strconv.Atoi "9223372037" = Some 9223372037
  /\ 9223372037 <= 9223372037 <= 18446744073
  /\ canCacheResponse demo_overflow = false
  /\ canMemoryCache demo_overflow = (0, false).
Proof.
  assert (H1 : http.Header_Get (RspHeader demo_overflow) "Cache-Control"
               = ("max-age=" ++ "9223372037")%string)
    by (vm_compute; reflexivity).
  assert (H2 : strconv.Atoi "9223372037" = Some 9223372037)
    by (vm_compute; reflexivity).
  assert (H3 : 9223372037 <= 9223372037 <= 18446744073) by lia.
  split; [exact H1|]. split; [exact H2|]. split; [exact H3|].
  exact (max_age_beyond_int64_not_cached demo_overflow "9223372037"
           9223372037 (or_introl H1) H2 H3).
Defined.

(** A GET and a response without Cache-Control. *)
Lemma missing_cache_control_witness :
  http.Header_Get (ReqHeader demo_get) "Cache-Control" = ""
  /\ http.Header_Get (RspHeader demo_plain) "Cache-Control" = ""
  /\ canCacheRequest demo_get = true
  /\ canCacheResponse demo_plain = false
  /\ canMemoryCache demo_plain = (0, false).
Proof.
  assert (H1 : http.Header_Get (ReqHeader demo_get) "Cache-Control" = "")
    by (vm_compute; reflexivity).
  assert (H2 : http.Header_Get (RspHeader demo_plain) "Cache-Control" = "")
    by (vm_compute; reflexivity).
  split; [exact H1|]. split; [exact H2|].
  exact (missing_cache_control demo_get demo_plain H1 H2).
Defined.

(** The GET of the examples, rewritten once and again. *)
Lemma rewriteRequest_settles_witness :
  rewriteRequest (mkProxyRequest demo_get demo_get)
  = Done (mkProxyRequest demo_get (demo_out demo_get))
  /\ Scheme (RURL (demo_out demo_get)) <> ""
  /\ rewriteRequest (mkProxyRequest demo_get (demo_out demo_get))
     = Done (mkProxyRequest demo_get (demo_out demo_get)).
Proof.
  assert (H1 : rewriteRequest (mkProxyRequest demo_get demo_get)
               = Done (mkProxyRequest demo_get (demo_out demo_get)))
    by (vm_compute; reflexivity).
  pose proof (rewriteRequest_settles _ _ H1)
    as (_ & _ & _ & Hscheme & _ & _ & _ & _ & Hagain).
  split; [exact H1|]. split; [exact Hscheme|exact Hagain].
Defined.

(** An entry with one header field, written to a new writer. *)
Lemma writeCachedResponse_appends_witness :
  let w' := writeCachedResponse newWriter demo_entry_header "hello" in
  canonical_keys demo_entry_header
  /\ wBody w' = ("" ++ "hello")%string
  /\ wStatus w' = Some 200.
Proof.
  intros w'.
  assert (H1 : canonical_keys demo_entry_header)
    by (apply canonical_keys_singleton; vm_compute; reflexivity).
  pose proof (writeCachedResponse_appends newWriter demo_entry_header "hello"
                H1) as Hthm.
  cbv zeta in Hthm. destruct Hthm as (_ & _ & Hbody & Hstatus).
  split; [exact H1|]. split; [exact Hbody|exact Hstatus].
Defined.

(** Accept-Encoding, with one value, taken out and put back. *)
Lemma restoreIgnored_puts_back_witness :
  let ignored := (gcsutil.ignoreHeaders_loop ["Accept-Encoding"]
                    demo_signed_header).1 in
  let hdr' := (gcsutil.ignoreHeaders_loop ["Accept-Encoding"]
                 demo_signed_header).2 in
  NoDup (http.CanonicalMIMEHeaderKey <$> ["Accept-Encoding"])
  /\ gcsutil.ranges ignored (map_to_list ignored)
  /\ gcsutil.restoreIgnored_loop (map_to_list ignored) hdr'
     = demo_signed_header.
Proof.
  intros ignored hdr'.
  assert (H1 : NoDup (http.CanonicalMIMEHeaderKey <$> ["Accept-Encoding"]))
    by apply NoDup_singleton.
  assert (H2 : gcsutil.ranges ignored (map_to_list ignored))
    by (unfold gcsutil.ranges; reflexivity).
  pose proof (restoreIgnored_puts_back ["Accept-Encoding"] demo_signed_header
                hdr' (map_to_list ignored) H1 H2) as Hthm.
  cbv zeta in Hthm. destruct Hthm as (_ & _ & _ & Hback).
  split; [exact H1|]. split; [exact H2|].
  apply Hback; [|reflexivity].
  intros h Hh. apply list_elem_of_singleton in Hh. subst h.
  exists "gzip". vm_compute. reflexivity.
Defined.

(** Accept-Encoding listed in lower case and in canonical form. *)
Lemma restoreIgnored_two_spellings_witness :
  "accept-encoding" <> "Accept-Encoding"
  /\ http.CanonicalMIMEHeaderKey "accept-encoding"
     = http.CanonicalMIMEHeaderKey "Accept-Encoding"
  /\ demo_signed_header !! http.CanonicalMIMEHeaderKey "accept-encoding"
     = Some ["gzip"]
  /\ http.Header_Values
       (gcsutil.restoreIgnored_loop
          [("accept-encoding", "gzip"); ("Accept-Encoding", "")] ∅)
       "accept-encoding" = [""]
  /\ http.Header_Values
       (gcsutil.restoreIgnored_loop
          [("Accept-Encoding", ""); ("accept-encoding", "gzip")] ∅)
       "accept-encoding" = ["gzip"].
Proof.
  assert (H1 : "accept-encoding" <> "Accept-Encoding") by discriminate.
  assert (H2 : http.CanonicalMIMEHeaderKey "accept-encoding"
               = http.CanonicalMIMEHeaderKey "Accept-Encoding")
    by (vm_compute; reflexivity).
  assert (H3 : demo_signed_header !! http.CanonicalMIMEHeaderKey "accept-encoding"
               = Some ["gzip"]) by (vm_compute; reflexivity).
  pose proof (restoreIgnored_two_spellings "accept-encoding" "Accept-Encoding"
                "gzip" [] demo_signed_header ∅ H1 H2 H3) as Hthm.
  cbv zeta in Hthm. destruct Hthm as (_ & _ & _ & Hlast & Hfirst).
  split; [exact H1|]. split; [exact H2|]. split; [exact H3|].
  split; [exact Hlast|exact Hfirst].
Defined.

(** A request that reaches [restoreIgnored] without the stack value. *)
Lemma restoreIgnored_without_stack_value_witness :
  (forall m : gmap string string, gcsutil.ranges m (map_to_list m))
  /\ gcsutil.restoreIgnored map_to_list (fun _ req => req) None
       (gcsutil.SmithyRequest demo_signed_header)
     = gcsutil.Next (gcsutil.SmithyRequest demo_signed_header).
Proof.
  assert (H1 : forall m : gmap string string, gcsutil.ranges m (map_to_list m))
    by (intros m; unfold gcsutil.ranges; reflexivity).
  split; [exact H1|].
  exact (proj1 (restoreIgnored_without_stack_value gcsutil.FinalizeRequest
                  map_to_list (fun _ req => req) demo_signed_header H1)).
Defined.

(** The hash [abcdef] under the directory and the empty key prefix of the
    examples. *)
Lemma cache_path_layout_witness :
  forallb is_lower_hex (list_ascii_of_string "abcdef") = true
  /\ (2 <= String.length "abcdef")%nat
  /\ makeKey demo_server "abcdef" = Done "ab/abcdef"
  /\ makePath demo_server "abcdef" = Done "/var/cache/ab/abcdef".
Proof.
  assert (H1 : forallb is_lower_hex (list_ascii_of_string "abcdef") = true)
    by (vm_compute; reflexivity).
  assert (H2 : (2 <= String.length "abcdef")%nat) by (cbn; lia).
  pose proof (cache_path_layout demo_server "abcdef" H1 H2) as Hthm.
  cbv zeta in Hthm. destruct Hthm as (Hkey & Hpath & _).
  split; [exact H1|]. split; [exact H2|].
  split; [exact (Hkey eq_refl)|exact (Hpath eq_refl)].
Defined.

(** The key prefixes [cache] and [cache/]. *)
Lemma cache_path_collisions_witness :
  let s := mkServer [] "" "cache" false false in
  let s' := mkServer [] "" "cache/" false false in
  forallb is_lower_hex (list_ascii_of_string "abcdef") = true
  /\ (2 <= String.length "abcdef")%nat
  /\ no_dots (KeyPrefix s) = true
  /\ makeKey s' "abcdef" = makeKey s "abcdef".
Proof.
  intros s s'.
  assert (H1 : forallb is_lower_hex (list_ascii_of_string "abcdef") = true)
    by (vm_compute; reflexivity).
  assert (H2 : (2 <= String.length "abcdef")%nat) by (cbn; lia).
  assert (H3 : no_dots (KeyPrefix s) = true) by (vm_compute; reflexivity).
  pose proof (cache_path_collisions s "abcdef" "abcdef" H1 H1 H2 H2 H3)
    as [_ Hslash].
  split; [exact H1|]. split; [exact H2|]. split; [exact H3|].
  apply (Hslash s'); [reflexivity|discriminate].
Defined.
